(** * Storyboard session state: a shallow embedding of [App.tsx] and of the
    backup-restore handler of [components/InputSection.tsx].

    - [JS]: the part of the JavaScript platform the handlers rely on:
      strings as UTF-16 code units, [includes] and global literal
      replacement, JSON values with their truthiness, property reads and
      writes, and [JSON.parse] as an executable parser;
    - [App]: the [useState] slots of the [App] component and the browser's
      [localStorage] as one record, and each handler as a computation in a
      monad of state and exceptions;
    - derived notions and lemmas: what the parser and the fence deletion
      guarantee, and what each handler computes;
    - the properties of the handlers: media registries, restore, parse,
      failures, navigation, credential. *)

From Stdlib Require Import String Ascii NArith ZArith Lia.
From stdpp Require Import base option list gmap.

Local Open Scope N_scope.

(** ** JavaScript strings *)

Module JS.

(** A JavaScript string is a sequence of UTF-16 code units, here a
    [list N]. [js] reads a source literal (UTF-8 bytes in a Rocq string) as
    the JavaScript string it denotes. *)
Definition emit_code_point (cp : N) : list N :=
  if cp <? 65536 then [cp]
  else [55296 + N.shiftr (cp - 65536) 10; 56320 + N.land (cp - 65536) 1023].

Fixpoint utf16_of_utf8 (s : string) (acc : N) (need : nat) : list N :=
  match s with
  | EmptyString => []
  | String a r =>
    let b := N_of_ascii a in
    match need with
    | O =>
      if b <? 128 then b :: utf16_of_utf8 r 0 0
      else if b <? 224 then utf16_of_utf8 r (N.land b 31) 1
      else if b <? 240 then utf16_of_utf8 r (N.land b 15) 2
      else utf16_of_utf8 r (N.land b 7) 3
    | S O =>
      emit_code_point (N.lor (N.shiftl acc 6) (N.land b 63)) ++ utf16_of_utf8 r 0 0
    | S k => utf16_of_utf8 r (N.lor (N.shiftl acc 6) (N.land b 63)) k
    end
  end.

Definition js (s : string) : list N := utf16_of_utf8 s 0 0.

Definition ch (a : ascii) : N := N_of_ascii a.

(** The double quote, and JSON text written with single quotes in its place:
    [json_text] turns every apostrophe of its argument into a double quote. *)
Definition quote : N := 34.

Definition json_text (s : string) : list N :=
  map (fun c => if c =? 39 then quote else c) (js s).

(** *** [String.prototype.includes], and [replace] with a global literal
    pattern and an empty replacement *)

Fixpoint startsWith (p s : list N) : bool :=
  match p, s with
  | [], _ => true
  | _ :: _, [] => false
  | a :: p', b :: s' => (a =? b) && startsWith p' s'
  end.

Fixpoint includes (p s : list N) : bool :=
  startsWith p s ||
  match s with
  | [] => false
  | _ :: s' => includes p s'
  end.

(** [delete_all p s skip]: scan [s] from the left; a match of [p] at the
    current position is dropped whole ([skip] counts the code units of the
    current match still to drop), and scanning resumes after it, so matches
    are the leftmost non-overlapping ones, as for a [/p/g] regular
    expression whose pattern is a plain literal. *)
Fixpoint delete_all (p s : list N) (skip : nat) : list N :=
  match s with
  | [] => []
  | c :: s' =>
    match skip with
    | S k => delete_all p s' k
    | O =>
      if startsWith p s then delete_all p s' (Nat.pred (length p))
      else c :: delete_all p s' 0
    end
  end.

(** [s.replace(/p/g, empty)] for a non-empty literal [p] and the empty
    replacement string. *)
Definition replace_all_empty (p s : list N) : list N := delete_all p s 0.

(** ** JSON values as JavaScript values *)

(** A number produced by [JSON.parse]: the exact decimal value
    [(-1)^neg * mant * 10^expo] of the literal. *)
Record JSNum := { neg : bool; mant : N; expo : Z }.

#[warnings="-register-all"]
Inductive JSValue :=
| JNull
| JBool (b : bool)
| JNumber (n : JSNum)
| JString (s : list N)
| JArray (l : list JSValue)
| JObject (props : list (list N * JSValue)).

(** The literal denotes a double that is [+0] or [-0]: either the mantissa
    is zero or the value is at most [2^-1075], half the least subnormal
    (the tie rounds to the even neighbour, zero). *)
Definition num_is_zero (n : JSNum) : bool :=
  (mant n =? 0) ||
  ((expo n <? 0)%Z && (mant n * 2 ^ 1075 <=? 10 ^ Z.to_N (- expo n))).

(** [ToBoolean]. JSON has no [NaN] and no [undefined]. *)
Definition truthy (v : JSValue) : bool :=
  match v with
  | JNull => false
  | JBool b => b
  | JNumber n => negb (num_is_zero n)
  | JString s => negb (bool_decide (s = []))
  | JArray _ => true
  | JObject _ => true
  end.

(** The result of reading a property: [None] is [undefined]. *)
Definition truthy_opt (o : option JSValue) : bool :=
  match o with
  | Some v => truthy v
  | None => false
  end.

Definition Array_isArray (o : option JSValue) : bool :=
  match o with
  | Some (JArray _) => true
  | _ => false
  end.

(** Own properties, in insertion order. *)
Fixpoint lookup_prop (k : list N) (props : list (list N * JSValue)) : option JSValue :=
  match props with
  | [] => None
  | (k', v) :: r => if bool_decide (k' = k) then Some v else lookup_prop k r
  end.

(** [CreateDataProperty] / assignment to a data property: an existing key
    keeps its place and takes the new value, a new key goes last. *)
Fixpoint set_prop (k : list N) (v : JSValue) (props : list (list N * JSValue))
  : list (list N * JSValue) :=
  match props with
  | [] => [(k, v)]
  | (k', v') :: r =>
    if bool_decide (k' = k) then (k, v) :: r else (k', v') :: set_prop k v r
  end.

(** Exceptions the handlers can meet. *)
Inductive JSError :=
| SyntaxError (text : list N)
| TypeError (prop : list N)
| Error (message : list N).

(** [v.k] for a property name [k] that no prototype and no exotic object
    defines (the handlers read [data], [storyboard_sequence],
    [project_meta], [reference_image], [generatedImages], [videoUrls]):
    reading from [null] throws, a primitive or an array has no such
    property, an object answers with its own property. *)
Definition get (v : JSValue) (k : list N) : JSError + option JSValue :=
  match v with
  | JNull => inl (TypeError k)
  | JObject props => inr (lookup_prop k props)
  | _ => inr None
  end.

(** [v.k = x] on an object; the handlers assign only to objects. *)
Definition set (v : JSValue) (k : list N) (x : JSValue) : JSValue :=
  match v with
  | JObject props => JObject (set_prop k x props)
  | _ => v
  end.

(** ** [JSON.parse] *)

Definition is_ws (c : N) : bool :=
  (c =? 9) || (c =? 10) || (c =? 13) || (c =? 32).

Fixpoint skip_ws (s : list N) : list N :=
  match s with
  | [] => []
  | c :: r => if is_ws c then skip_ws r else s
  end.

Definition is_digit (c : N) : bool := (48 <=? c) && (c <=? 57).

Definition hex_val (c : N) : option N :=
  if is_digit c then Some (c - 48)
  else if (97 <=? c) && (c <=? 102) then Some (c - 87)
  else if (65 <=? c) && (c <=? 70) then Some (c - 55)
  else None.

Definition hex4 (a b c d : N) : option N :=
  match hex_val a, hex_val b, hex_val c, hex_val d with
  | Some x, Some y, Some z, Some w => Some (((x * 16 + y) * 16 + z) * 16 + w)
  | _, _, _, _ => None
  end.

Definition simple_escape (e : N) : option N :=
  if e =? quote then Some 34
  else if e =? ch "\" then Some 92
  else if e =? ch "/" then Some 47
  else if e =? ch "b" then Some 8
  else if e =? ch "f" then Some 12
  else if e =? ch "n" then Some 10
  else if e =? ch "r" then Some 13
  else if e =? ch "t" then Some 9
  else None.

Definition cons_fst {A B} (a : A) (o : option (list A * B)) : option (list A * B) :=
  match o with
  | Some (l, r) => Some (a :: l, r)
  | None => None
  end.

(** The characters of a string literal after its opening quote, up to and
    including the closing quote. *)
Fixpoint parse_string_body (s : list N) : option (list N * list N) :=
  match s with
  | [] => None
  | c :: r =>
    if c =? quote then Some ([], r)
    else if c =? ch "\" then
      match r with
      | [] => None
      | e :: r' =>
        if e =? ch "u" then
          match r' with
          | h1 :: h2 :: h3 :: h4 :: r'' =>
            match hex4 h1 h2 h3 h4 with
            | Some u => cons_fst u (parse_string_body r'')
            | None => None
            end
          | _ => None
          end
        else
          match simple_escape e with
          | Some x => cons_fst x (parse_string_body r')
          | None => None
          end
      end
    else if c <? 32 then None
    else cons_fst c (parse_string_body r)
  end.

(** A maximal run of decimal digits: its value on top of [acc], its length,
    and the rest. *)
Fixpoint take_digits (s : list N) (acc : N) (count : nat) : N * nat * list N :=
  match s with
  | c :: r => if is_digit c then take_digits r (acc * 10 + (c - 48)) (S count)
              else (acc, count, s)
  | [] => (acc, count, s)
  end.

Definition parse_exponent (s : list N) : option (Z * list N) :=
  match s with
  | c :: r =>
    if (c =? ch "e") || (c =? ch "E") then
      let '(sign, r1) :=
        match r with
        | d :: r' =>
          if d =? ch "-" then (true, r')
          else if d =? ch "+" then (false, r')
          else (false, r)
        | [] => (false, r)
        end in
      match take_digits r1 0 0 with
      | (_, O, _) => None
      | (e, _, r2) => Some (if sign : bool then (- Z.of_N e)%Z else Z.of_N e, r2)
      end
    else Some (0%Z, s)
  | [] => Some (0%Z, s)
  end.

Definition parse_fraction (m : N) (s : list N) : option (N * nat * list N) :=
  match s with
  | c :: r =>
    if c =? ch "." then
      match take_digits r m 0 with
      | (_, O, _) => None
      | res => Some res
      end
    else Some (m, O, s)
  | [] => Some (m, O, s)
  end.

(** An optional minus sign; an integer part, either a single zero or a
    digit run that does not start with zero; an optional fraction, a dot and
    at least one digit; an optional exponent. *)
Definition parse_number (s : list N) : option (JSNum * list N) :=
  let '(sg, s1) :=
    match s with
    | c :: r => if c =? ch "-" then (true, r) else (false, s)
    | [] => (false, s)
    end in
  let int_part :=
    match s1 with
    | c :: r =>
      if c =? ch "0" then Some (0, r)
      else if is_digit c then
        let '(m, _, r') := take_digits s1 0 0 in Some (m, r')
      else None
    | [] => None
    end in
  match int_part with
  | None => None
  | Some (m, s2) =>
    match parse_fraction m s2 with
    | None => None
    | Some (m', fd, s3) =>
      match parse_exponent s3 with
      | None => None
      | Some (e, s4) =>
        Some ({| neg := sg; mant := m'; expo := (e - Z.of_nat fd)%Z |}, s4)
      end
    end
  end.

Definition expect (p : list N) (s : list N) : option (list N) :=
  if startsWith p s then Some (drop (length p) s) else None.

Section Compound.
(** The parser of one value, given one level of nesting less. *)
Variable value : list N -> option (JSValue * list N).

(** After [[] and a first look that excluded []]: [value (, value)* ]]. *)
Fixpoint parse_elements (fuel : nat) (s : list N) : option (list JSValue * list N) :=
  match fuel with
  | O => None
  | S f =>
    match value s with
    | None => None
    | Some (v, r) =>
      match skip_ws r with
      | c :: r' =>
        if c =? ch "," then cons_fst v (parse_elements f r')
        else if c =? ch "]" then Some ([v], r')
        else None
      | [] => None
      end
    end
  end.

(** After [{] and a first look that excluded [}]:
    [string : value (, string : value)* }]. A repeated key overwrites. *)
Fixpoint parse_members (fuel : nat) (acc : list (list N * JSValue)) (s : list N)
  : option (list (list N * JSValue) * list N) :=
  match fuel with
  | O => None
  | S f =>
    match skip_ws s with
    | c :: r =>
      if c =? quote then
        match parse_string_body r with
        | None => None
        | Some (k, r1) =>
          match skip_ws r1 with
          | c1 :: r2 =>
            if c1 =? ch ":" then
              match value r2 with
              | None => None
              | Some (v, r3) =>
                match skip_ws r3 with
                | c2 :: r4 =>
                  if c2 =? ch "," then parse_members f (set_prop k v acc) r4
                  else if c2 =? ch "}" then Some (set_prop k v acc, r4)
                  else None
                | [] => None
                end
              end
            else None
          | [] => None
          end
        end
      else None
    | [] => None
    end
  end.
End Compound.

Fixpoint parse_value (fuel : nat) (s : list N) : option (JSValue * list N) :=
  match fuel with
  | O => None
  | S f =>
    match skip_ws s with
    | [] => None
    | c :: r =>
      if c =? ch "{" then
        match skip_ws r with
        | c' :: r' =>
          if c' =? ch "}" then Some (JObject [], r')
          else
            match parse_members (parse_value f) f [] r with
            | Some (ps, r'') => Some (JObject ps, r'')
            | None => None
            end
        | [] => None
        end
      else if c =? ch "[" then
        match skip_ws r with
        | c' :: r' =>
          if c' =? ch "]" then Some (JArray [], r')
          else
            match parse_elements (parse_value f) f r with
            | Some (l, r'') => Some (JArray l, r'')
            | None => None
            end
        | [] => None
        end
      else if c =? quote then
        match parse_string_body r with
        | Some (str, r') => Some (JString str, r')
        | None => None
        end
      else if c =? ch "t" then
        match expect (js "rue") r with Some r' => Some (JBool true, r') | None => None end
      else if c =? ch "f" then
        match expect (js "alse") r with Some r' => Some (JBool false, r') | None => None end
      else if c =? ch "n" then
        match expect (js "ull") r with Some r' => Some (JNull, r') | None => None end
      else
        match parse_number (c :: r) with
        | Some (n, r') => Some (JNumber n, r')
        | None => None
        end
    end
  end.

(** [JSON.parse(text)]: white space, one value, white space, end of text.
    [None] stands for the [SyntaxError] it throws. No value nests deeper
    than the text is long, so the fuel never runs out on a valid text. *)
Definition JSON_parse (text : list N) : option JSValue :=
  match parse_value (S (length text)) text with
  | Some (v, r) =>
    match skip_ws r with
    | [] => Some v
    | _ :: _ => None
    end
  | None => None
  end.

End JS.

(** ** The [App] component *)

Module App.
Import JS.

Inductive ViewMode := input | output.

(** [ToastType] is declared in [components/Toast]; [App.tsx] uses these two
    of its values. *)
Inductive ToastType := toast_success | toast_error.

Record Toast := { visible : bool; message : list N; type : ToastType }.

(** The [useState] slots of [App], in the order of their declaration, and
    the browser's [localStorage] ([None] when there is no [window]).
    [null] in a slot that later holds a parsed value is [JNull]. *)
Record AppState := {
  viewMode : ViewMode;
  data : JSValue;
  error : option (list N);
  userApiKey : list N;
  jsonInput : list N;
  refImage : JSValue;
  generatedImages : JSValue;
  videoUrls : JSValue;
  toast : Toast;
  localStorage : option (gmap (list N) (list N))
}.

(** *** Handlers run in a monad of state and exceptions: a [throw] keeps the
    state changes made before it. *)

Definition M (A : Type) : Type := AppState -> (JSError + A) * AppState.

Definition ret {A} (a : A) : M A := fun s => (inr a, s).

Definition bind {A B} (m : M A) (k : A -> M B) : M B :=
  fun s =>
    match m s with
    | (inr a, s') => k a s'
    | (inl e, s') => (inl e, s')
    end.

Definition throw {A} (e : JSError) : M A := fun s => (inl e, s).

Definition lift {A} (r : JSError + A) : M A := fun s => (r, s).

Definition try_catch {A} (body : M A) (handler : JSError -> M A) : M A :=
  fun s =>
    match body s with
    | (inr a, s') => (inr a, s')
    | (inl e, s') => handler e s'
    end.

Definition modify (f : AppState -> AppState) : M unit := fun s => (inr tt, f s).

Definition exec {A} (m : M A) (s : AppState) : AppState := snd (m s).

Definition outcome {A} (m : M A) (s : AppState) : JSError + A := fst (m s).

Notation "x <- m ;; k" := (bind m (fun x => k))
  (at level 100, m at next level, right associativity).
Notation "m ;; k" := (bind m (fun _ => k))
  (at level 100, right associativity).

(** *** The state setters *)

Definition setViewMode (v : ViewMode) : M unit :=
  modify (fun s =>
    {| viewMode := v; data := data s; error := error s;
       userApiKey := userApiKey s; jsonInput := jsonInput s;
       refImage := refImage s; generatedImages := generatedImages s;
       videoUrls := videoUrls s; toast := toast s;
       localStorage := localStorage s |}).

Definition setData (d : JSValue) : M unit :=
  modify (fun s =>
    {| viewMode := viewMode s; data := d; error := error s;
       userApiKey := userApiKey s; jsonInput := jsonInput s;
       refImage := refImage s; generatedImages := generatedImages s;
       videoUrls := videoUrls s; toast := toast s;
       localStorage := localStorage s |}).

Definition setError (e : option (list N)) : M unit :=
  modify (fun s =>
    {| viewMode := viewMode s; data := data s; error := e;
       userApiKey := userApiKey s; jsonInput := jsonInput s;
       refImage := refImage s; generatedImages := generatedImages s;
       videoUrls := videoUrls s; toast := toast s;
       localStorage := localStorage s |}).

Definition setUserApiKey (k : list N) : M unit :=
  modify (fun s =>
    {| viewMode := viewMode s; data := data s; error := error s;
       userApiKey := k; jsonInput := jsonInput s;
       refImage := refImage s; generatedImages := generatedImages s;
       videoUrls := videoUrls s; toast := toast s;
       localStorage := localStorage s |}).

Definition setJsonInput (t : list N) : M unit :=
  modify (fun s =>
    {| viewMode := viewMode s; data := data s; error := error s;
       userApiKey := userApiKey s; jsonInput := t;
       refImage := refImage s; generatedImages := generatedImages s;
       videoUrls := videoUrls s; toast := toast s;
       localStorage := localStorage s |}).

Definition setRefImage (i : JSValue) : M unit :=
  modify (fun s =>
    {| viewMode := viewMode s; data := data s; error := error s;
       userApiKey := userApiKey s; jsonInput := jsonInput s;
       refImage := i; generatedImages := generatedImages s;
       videoUrls := videoUrls s; toast := toast s;
       localStorage := localStorage s |}).

Definition setGeneratedImages (i : JSValue) : M unit :=
  modify (fun s =>
    {| viewMode := viewMode s; data := data s; error := error s;
       userApiKey := userApiKey s; jsonInput := jsonInput s;
       refImage := refImage s; generatedImages := i;
       videoUrls := videoUrls s; toast := toast s;
       localStorage := localStorage s |}).

Definition setVideoUrls (v : JSValue) : M unit :=
  modify (fun s =>
    {| viewMode := viewMode s; data := data s; error := error s;
       userApiKey := userApiKey s; jsonInput := jsonInput s;
       refImage := refImage s; generatedImages := generatedImages s;
       videoUrls := v; toast := toast s;
       localStorage := localStorage s |}).

Definition setToast (t : Toast) : M unit :=
  modify (fun s =>
    {| viewMode := viewMode s; data := data s; error := error s;
       userApiKey := userApiKey s; jsonInput := jsonInput s;
       refImage := refImage s; generatedImages := generatedImages s;
       videoUrls := videoUrls s; toast := t;
       localStorage := localStorage s |}).

(** [localStorage.setItem] and [localStorage.removeItem], under the guard
    [typeof window !== 'undefined']. *)
Definition withLocalStorage
  (f : gmap (list N) (list N) -> gmap (list N) (list N)) : M unit :=
  modify (fun s =>
    {| viewMode := viewMode s; data := data s; error := error s;
       userApiKey := userApiKey s; jsonInput := jsonInput s;
       refImage := refImage s; generatedImages := generatedImages s;
       videoUrls := videoUrls s; toast := toast s;
       localStorage := f <$> localStorage s |}).

Definition showToast (msg : list N) (ty : ToastType) : M unit :=
  setToast {| visible := true; message := msg; type := ty |}.

(** *** Constants of the source *)

Definition gemini_api_key : list N := js "gemini_api_key".
Definition storyboard_sequence : list N := js "storyboard_sequence".
Definition project_meta : list N := js "project_meta".
Definition reference_image : list N := js "reference_image".
Definition fence : list N := js "```".
Definition fence_json : list N := js "```json".

Definition default_meta : JSValue :=
  JObject [ (js "title", JString (js "제목 없는 프로젝트"));
            (js "logline", JString (js "로그라인이 제공되지 않았습니다.")) ].

(** [a || b] on strings, [a] possibly [null]. *)
Definition str_or (a : option (list N)) (b : list N) : list N :=
  match a with
  | Some (c :: r) => c :: r
  | _ => b
  end.

(** [a || b] on values, [a] possibly [undefined]. *)
Definition val_or (a : option JSValue) (b : JSValue) : JSValue :=
  match a with
  | Some v => if truthy v then v else b
  | None => b
  end.

(** [o.k] where [o] is itself the result of a property read. *)
Definition get_opt (o : option JSValue) (k : list N) : JSError + option JSValue :=
  match o with
  | Some v => get v k
  | None => inl (TypeError k)
  end.

(** The first render: [useState] initial values. *)
Definition initial (window : option (gmap (list N) (list N))) : AppState :=
  {| viewMode := input;
     data := JNull;
     error := None;
     userApiKey :=
       match window with
       | Some ls => str_or (ls !! gemini_api_key) []
       | None => []
       end;
     jsonInput := [];
     refImage := JNull;
     generatedImages := JObject [];
     videoUrls := JObject [];
     toast := {| visible := false; message := []; type := toast_success |};
     localStorage := window |}.

Definition handleSetApiKey (key : list N) : M unit :=
  setUserApiKey key ;;
  match key with
  | _ :: _ => withLocalStorage (fun ls => <[gemini_api_key := key]> ls)
  | [] => withLocalStorage (fun ls => delete gemini_api_key ls)
  end.

(** Step 2 of [handleVisualize]: the text handed to [JSON.parse]. *)
Definition strip_fences (rawInput : list N) : list N :=
  if includes fence rawInput
  then replace_all_empty fence (replace_all_empty fence_json rawInput)
  else rawInput.

Definition JSON_parse_or_throw (text : list N) : M JSValue :=
  match JSON_parse text with
  | Some v => ret v
  | None => throw (SyntaxError text)
  end.

Section Engine.
(** The [message] of an error the engine itself raises (a [SyntaxError]
    of [JSON.parse], a [TypeError] of a property read); its wording is the
    engine's. *)
Variable engine_message : JSError -> list N.

Definition message_of (e : JSError) : list N :=
  match e with
  | Error m => m
  | _ => engine_message e
  end.

(** [err instanceof Error]: every exception modelled here is one. *)
Definition instanceof_Error (e : JSError) : bool := true.

(** The [try] block of [handleVisualize]. *)
Definition visualize_try (jsonInput : list N) (refImage : JSValue) : M unit :=
  let rawInput := strip_fences jsonInput in
  parsedData <- JSON_parse_or_throw rawInput ;;
  seq <- lift (get parsedData storyboard_sequence) ;;
  (if negb (truthy_opt seq) || negb (Array_isArray seq)
   then throw (Error (js "데이터 구조 오류: 'storyboard_sequence' 배열이 없습니다."))
   else ret tt) ;;
  meta <- lift (get parsedData project_meta) ;;
  let parsedData :=
    if negb (truthy_opt meta) then set parsedData project_meta default_meta
    else parsedData in
  let parsedData :=
    if truthy refImage then set parsedData reference_image refImage
    else parsedData in
  setData parsedData ;;
  setViewMode output ;;
  showToast (js "스토리보드가 생성되었습니다!") toast_success.

(** The [catch] block of [handleVisualize] ([console.error] leaves the
    state alone). *)
Definition visualize_catch (err : JSError) : M unit :=
  let msg := if instanceof_Error err then message_of err else js "JSON 파싱 실패" in
  setError (Some (js "오류: " ++ msg)) ;;
  showToast (js "올바르지 않은 JSON 형식입니다. 입력을 확인해주세요.") toast_error.

Definition handleVisualize (jsonInput : list N) (refImage : JSValue) : M unit :=
  setError None ;;
  try_catch (visualize_try jsonInput refImage) visualize_catch.
End Engine.

Definition handleReset : M unit :=
  setViewMode input ;;
  setError None.

Definition handleImagesUpdate (images : JSValue) : M unit :=
  setGeneratedImages images.

Definition handleVideosUpdate (videos : JSValue) : M unit :=
  setVideoUrls videos.

Definition handleRestoreData (restoredData images videos : JSValue) : M unit :=
  setData restoredData ;;
  setGeneratedImages images ;;
  setVideoUrls videos ;;
  ref <- lift (get restoredData reference_image) ;;
  match ref with
  | Some r => if truthy r then setRefImage r else ret tt
  | None => ret tt
  end ;;
  setViewMode output.

(** Props that [App] hands to [InputSection]. *)
Definition hasData (s : AppState) : bool :=
  match data s with
  | JNull => false
  | _ => true
  end.

Definition onGoToOutput : M unit := setViewMode output.

Definition onShowToast (msg : list N) : M unit := showToast msg toast_success.

Definition onRestoreData := handleRestoreData.

(** ** [InputSection]: the handlers that reach the [App] state *)

(** The storyboard and video buttons of the side bar:
    [onClick={hasData ? onGoToOutput : undefined}]. *)
Definition clickGoToOutput : M unit :=
  fun s => if hasData s then onGoToOutput s else ret tt s.

(** The [try] block of [reader.onload] in [handleRestoreFile]; [content] is
    the text of the chosen file. Past the guard, [backupData.data] is a
    truthy value, which [val_or d JNull] then is. *)
Definition restore_try (content : list N) : M unit :=
  backupData <- JSON_parse_or_throw content ;;
  d <- lift (get backupData (js "data")) ;;
  (if negb (truthy_opt d) then throw (Error (js "유효하지 않은 백업 파일입니다."))
   else
     seq <- lift (get_opt d storyboard_sequence) ;;
     if negb (truthy_opt seq) then throw (Error (js "유효하지 않은 백업 파일입니다."))
     else ret tt) ;;
  images <- lift (get backupData (js "generatedImages")) ;;
  videos <- lift (get backupData (js "videoUrls")) ;;
  onRestoreData (val_or d JNull) (val_or images (JObject [])) (val_or videos (JObject [])) ;;
  onShowToast (js "백업 데이터 복원 완료! 스토리보드로 이동합니다.").

Definition restore_catch (err : JSError) : M unit :=
  onShowToast (js "백업 파일 복원 실패. 파일 형식을 확인해주세요.").

Definition restore_onload (content : list N) : M unit :=
  try_catch (restore_try content) restore_catch.

(** [handleRestoreFile]: nothing happens without a file; otherwise the file
    is read as text and [onload] runs on its content. *)
Definition handleRestoreFile (file : option (list N)) : M unit :=
  match file with
  | None => ret tt
  | Some content => restore_onload content
  end.

End App.

Import JS App.

(** * Derived notions used in the statements *)

(** The document [handleVisualize] stores, or the exception its [try] block
    ends with. *)
Definition parsed_document (jsonInput : list N) (refImage : JSValue)
  : JSError + JSValue :=
  match JSON_parse (strip_fences jsonInput) with
  | None => inl (SyntaxError (strip_fences jsonInput))
  | Some parsedData =>
    match get parsedData storyboard_sequence with
    | inl e => inl e
    | inr seq =>
      if truthy_opt seq && Array_isArray seq then
        match get parsedData project_meta with
        | inl e => inl e
        | inr meta =>
          let withMeta :=
            if truthy_opt meta then parsedData
            else set parsedData project_meta default_meta in
          inr (if truthy refImage then set withMeta reference_image refImage
               else withMeta)
        end
      else inl (Error (js "데이터 구조 오류: 'storyboard_sequence' 배열이 없습니다."))
    end
  end.

Definition visualized (doc : JSValue) (s : AppState) : AppState :=
  {| viewMode := output; data := doc; error := error s;
     userApiKey := userApiKey s; jsonInput := jsonInput s;
     refImage := refImage s; generatedImages := generatedImages s;
     videoUrls := videoUrls s;
     toast := {| visible := true; message := js "스토리보드가 생성되었습니다!";
                 type := toast_success |};
     localStorage := localStorage s |}.

Definition visualize_failed (em : JSError -> list N) (e : JSError) (s : AppState)
  : AppState :=
  {| viewMode := viewMode s; data := data s;
     error := Some (js "오류: " ++ message_of em e);
     userApiKey := userApiKey s; jsonInput := jsonInput s;
     refImage := refImage s; generatedImages := generatedImages s;
     videoUrls := videoUrls s;
     toast := {| visible := true;
                 message := js "올바르지 않은 JSON 형식입니다. 입력을 확인해주세요.";
                 type := toast_error |};
     localStorage := localStorage s |}.

(** The three values a backup file restores, when [reader.onload] accepts
    it. *)
Definition backup_payload (content : list N) : option (JSValue * JSValue * JSValue) :=
  match JSON_parse content with
  | Some (JObject props) =>
    match lookup_prop (js "data") props with
    | Some d =>
      if truthy d &&
         match d with
         | JObject dprops => truthy_opt (lookup_prop storyboard_sequence dprops)
         | _ => false
         end
      then Some (d,
                 val_or (lookup_prop (js "generatedImages") props) (JObject []),
                 val_or (lookup_prop (js "videoUrls") props) (JObject []))
      else None
    | None => None
    end
  | _ => None
  end.

Definition restored (d images videos : JSValue) (s : AppState) : AppState :=
  {| viewMode := output; data := d; error := error s;
     userApiKey := userApiKey s; jsonInput := jsonInput s;
     refImage :=
       match get d reference_image with
       | inr (Some r) => if truthy r then r else refImage s
       | _ => refImage s
       end;
     generatedImages := images; videoUrls := videos;
     toast := toast s;
     localStorage := localStorage s |}.

(** The entry of a media registry at an index. A registry is a plain object
    whose keys are the decimal indexes. *)
Definition entry (registry : JSValue) (index : list N) : option JSValue :=
  match registry with
  | JObject props => lookup_prop index props
  | _ => None
  end.

(** The slots that are neither the error slot nor the toast. *)
Definition same_session (s s' : AppState) : Prop :=
  data s' = data s /\ viewMode s' = viewMode s /\
  generatedImages s' = generatedImages s /\ videoUrls s' = videoUrls s /\
  jsonInput s' = jsonInput s /\ refImage s' = refImage s /\
  userApiKey s' = userApiKey s /\ localStorage s' = localStorage s.

(** A session in the output view, with a document, one generated image and
    one generated video. *)
Definition sample_session : AppState :=
  {| viewMode := output;
     data := JObject [(storyboard_sequence, JArray [])];
     error := Some (js "old");
     userApiKey := js "key"; jsonInput := js "text";
     refImage := JString (js "img");
     generatedImages := JObject [(js "0", JString (js "a"))];
     videoUrls := JObject [(js "1", JString (js "b"))];
     toast := {| visible := false; message := []; type := toast_success |};
     localStorage := None |}.

(** White space only. *)
Definition all_ws (w : list N) : Prop := Forall (fun c => is_ws c = true) w.

(** Empty, or beginning with a white-space character. *)
Definition ws_headed (w : list N) : Prop :=
  match w with
  | [] => True
  | c :: _ => is_ws c = true
  end.

(** [value] reads the same from a text when [w] follows the text. *)
Definition extends (w : list N) (value : list N -> option (JSValue * list N)) : Prop :=
  forall s v r, value s = Some (v, r) -> value (s ++ w) = Some (v, r ++ w).

Definition refines (v1 v2 : list N -> option (JSValue * list N)) : Prop :=
  forall s x, v1 s = Some x -> v2 s = Some x.

(** [v1] leaves no more than it was given, and [v2] reads what [v1] reads
    from every text of length at most [bound]. *)
Definition covers (bound : nat) (v1 v2 : list N -> option (JSValue * list N)) : Prop :=
  forall s v r, v1 s = Some (v, r) ->
    (length r <= length s)%nat /\
    ((length s <= bound)%nat -> v2 s = Some (v, r)).

(** * The rest of the two components *)

(** ** [InputSection] *)

Module InputSection.

(** White space for [String.prototype.trim]: the WhiteSpace and
    LineTerminator code points. *)
Definition is_js_ws (c : N) : bool :=
  (c =? 9) || (c =? 10) || (c =? 11) || (c =? 12) || (c =? 13) || (c =? 32) ||
  (c =? 160) || (c =? 5760) || ((8192 <=? c) && (c <=? 8202)) ||
  (c =? 8232) || (c =? 8233) || (c =? 8239) || (c =? 8287) ||
  (c =? 12288) || (c =? 65279).

Fixpoint trimStart (s : list N) : list N :=
  match s with
  | [] => []
  | c :: r => if is_js_ws c then trimStart r else s
  end.

Definition trim (s : list N) : list N := rev (trimStart (rev (trimStart s))).

(** [!s] for a string [s]. *)
Definition is_empty (s : list N) : bool :=
  match s with
  | [] => true
  | _ :: _ => false
  end.

(** The [useState] slots of [InputSection]. *)
Record LocalState := {
  isSettingsOpen : bool;
  tempApiKey : list N;
  showApiKeyWarning : bool;
  showUrlInput : bool;
  imageUrl : list N;
  isLoadingUrl : bool;
  urlError : option (list N)
}.

(** The first render of the component, with the [userApiKey] prop. *)
Definition mount (userApiKey : list N) : LocalState :=
  {| isSettingsOpen := false; tempApiKey := userApiKey;
     showApiKeyWarning := false; showUrlInput := false; imageUrl := [];
     isLoadingUrl := false; urlError := None |}.

Definition setIsSettingsOpen (b : bool) (l : LocalState) : LocalState :=
  {| isSettingsOpen := b; tempApiKey := tempApiKey l;
     showApiKeyWarning := showApiKeyWarning l; showUrlInput := showUrlInput l;
     imageUrl := imageUrl l; isLoadingUrl := isLoadingUrl l;
     urlError := urlError l |}.

Definition setTempApiKey (k : list N) (l : LocalState) : LocalState :=
  {| isSettingsOpen := isSettingsOpen l; tempApiKey := k;
     showApiKeyWarning := showApiKeyWarning l; showUrlInput := showUrlInput l;
     imageUrl := imageUrl l; isLoadingUrl := isLoadingUrl l;
     urlError := urlError l |}.

Definition setShowApiKeyWarning (b : bool) (l : LocalState) : LocalState :=
  {| isSettingsOpen := isSettingsOpen l; tempApiKey := tempApiKey l;
     showApiKeyWarning := b; showUrlInput := showUrlInput l;
     imageUrl := imageUrl l; isLoadingUrl := isLoadingUrl l;
     urlError := urlError l |}.

Definition setShowUrlInput (b : bool) (l : LocalState) : LocalState :=
  {| isSettingsOpen := isSettingsOpen l; tempApiKey := tempApiKey l;
     showApiKeyWarning := showApiKeyWarning l; showUrlInput := b;
     imageUrl := imageUrl l; isLoadingUrl := isLoadingUrl l;
     urlError := urlError l |}.

Definition setImageUrl (u : list N) (l : LocalState) : LocalState :=
  {| isSettingsOpen := isSettingsOpen l; tempApiKey := tempApiKey l;
     showApiKeyWarning := showApiKeyWarning l; showUrlInput := showUrlInput l;
     imageUrl := u; isLoadingUrl := isLoadingUrl l;
     urlError := urlError l |}.

Definition setIsLoadingUrl (b : bool) (l : LocalState) : LocalState :=
  {| isSettingsOpen := isSettingsOpen l; tempApiKey := tempApiKey l;
     showApiKeyWarning := showApiKeyWarning l; showUrlInput := showUrlInput l;
     imageUrl := imageUrl l; isLoadingUrl := b;
     urlError := urlError l |}.

Definition setUrlError (e : option (list N)) (l : LocalState) : LocalState :=
  {| isSettingsOpen := isSettingsOpen l; tempApiKey := tempApiKey l;
     showApiKeyWarning := showApiKeyWarning l; showUrlInput := showUrlInput l;
     imageUrl := imageUrl l; isLoadingUrl := isLoadingUrl l;
     urlError := e |}.

(** The fields of a keyboard event that [handleKeyDown] reads. *)
Record KeyboardEvent := { ctrlKey : bool; metaKey : bool; key : list N }.

(** What the network and the file reader answer to [handleLoadImageUrl]:
    [fetch] rejects or gives a response; [response.blob()] rejects or gives
    a blob with its type; [reader.result] at [loadend] is the data URL, or
    [null] after a read error. *)
Inductive BlobOutcome :=
| BlobRejected (e : JSError)
| Blob (type : list N) (read : option (list N)).

Inductive FetchOutcome :=
| FetchRejected (e : JSError)
| FetchResponse (ok : bool) (body : BlobOutcome).

Definition reader_result (read : option (list N)) : JSValue :=
  match read with
  | Some url => JString url
  | None => JNull
  end.

Section Handlers.
Variable engine_message : JSError -> list N.

(** [handleVisualizeClick], with the props [userApiKey], [jsonInput] and
    [refImage] of the current render. *)
Definition handleVisualizeClick (l : LocalState) (s : AppState)
  : LocalState * AppState :=
  if is_empty (userApiKey s)
  then (setIsSettingsOpen true (setShowApiKeyWarning true l), s)
  else (l, exec (handleVisualize engine_message (jsonInput s) (refImage s)) s).

Definition handleKeyDown (e : KeyboardEvent) (l : LocalState) (s : AppState)
  : LocalState * AppState :=
  if (ctrlKey e || metaKey e) && bool_decide (key e = js "Enter")
  then handleVisualizeClick l s
  else (l, s).

(** A click on the submit button, [disabled={!jsonInput.trim()}]: a disabled
    button delivers no click. *)
Definition clickSubmit (l : LocalState) (s : AppState) : LocalState * AppState :=
  if is_empty (trim (jsonInput s)) then (l, s) else handleVisualizeClick l s.

(** The part of [handleLoadImageUrl] inside [try] up to the start of the
    reader: the blob to read, or the exception. *)
Definition load_try (net : FetchOutcome) : JSError + option (list N) :=
  match net with
  | FetchRejected e => inl e
  | FetchResponse ok body =>
    if negb ok then inl (Error (js "이미지를 불러올 수 없습니다."))
    else
      match body with
      | BlobRejected e => inl e
      | Blob type read =>
        if negb (startsWith (js "image/") type)
        then inl (Error (js "유효한 이미지 파일이 아닙니다."))
        else inr read
      end
  end.

(** [reader.onloadend] of [handleLoadImageUrl]. *)
Definition load_onloadend (read : option (list N)) (l : LocalState) (s : AppState)
  : LocalState * AppState :=
  (setImageUrl [] (setShowUrlInput false l),
   exec (setRefImage (reader_result read) ;;
         onShowToast (js "이미지 URL 로드 완료!")) s).

(** [handleLoadImageUrl], run to the end with no other event in between:
    the [try] block, [catch], [finally], and then the reader's [loadend]. *)
Definition handleLoadImageUrl (net : FetchOutcome) (l : LocalState) (s : AppState)
  : LocalState * AppState :=
  if is_empty (trim (imageUrl l)) then (l, s)
  else
    let l1 := setUrlError None (setIsLoadingUrl true l) in
    match load_try net with
    | inl error =>
      let msg := if instanceof_Error error then message_of engine_message error
                 else js "이미지를 불러올 수 없습니다." in
      (setIsLoadingUrl false (setUrlError (Some msg) l1), s)
    | inr read => load_onloadend read (setIsLoadingUrl false l1) s
    end.
End Handlers.

(** [handleImageUpload]: without a file nothing happens; otherwise the file
    is read and [onloadend] stores [reader.result]. *)
Definition handleImageUpload (file : option (option (list N)))
  (l : LocalState) (s : AppState) : LocalState * AppState :=
  match file with
  | None => (l, s)
  | Some read => (l, exec (setRefImage (reader_result read)) s)
  end.

Definition clearImage (l : LocalState) (s : AppState) : LocalState * AppState :=
  (setUrlError None (setImageUrl [] l), exec (setRefImage JNull) s).

Definition handleSaveApiKey (l : LocalState) (s : AppState) : LocalState * AppState :=
  (setShowApiKeyWarning false (setIsSettingsOpen false l),
   exec (handleSetApiKey (tempApiKey l)) s).

(** A click on the save button, [disabled={!tempApiKey.trim()}]. *)
Definition clickSave (l : LocalState) (s : AppState) : LocalState * AppState :=
  if is_empty (trim (tempApiKey l)) then (l, s) else handleSaveApiKey l s.

(** The settings button of the side bar. *)
Definition openSettings (l : LocalState) (s : AppState) : LocalState * AppState :=
  (setIsSettingsOpen true (setTempApiKey (userApiKey s) l), s).

End InputSection.

(** ** The callbacks of [App], as the events of the session *)

Module Session.

(** [onClose] of the toast: [setToast(prev => ({ ...prev, visible: false }))]. *)
Definition closeToast : M unit :=
  fun s => setToast {| visible := false; message := message (toast s);
                       type := type (toast s) |} s.

(** Every way the state of [App] changes: the props handed to
    [InputSection] (with [onGoToOutput] behind its [hasData] guard and
    [onRestoreData] inside [handleRestoreFile], as [InputSection] uses
    them), the props handed to [OutputSection], and the toast's
    [onClose]. *)
Inductive Event :=
| Visualize (jsonInput : list N) (refImage : JSValue)
| SetApiKey (key : list N)
| JsonInputChange (value : list N)
| RefImageChange (value : JSValue)
| GoToOutput
| RestoreFile (file : option (list N))
| ShowToast (msg : list N)
| Reset
| CopyToast (msg : list N)
| ImagesUpdate (images : JSValue)
| VideosUpdate (videos : JSValue)
| CloseToast.

Section Steps.
Variable engine_message : JSError -> list N.

Definition step (e : Event) : M unit :=
  match e with
  | Visualize jsonInput refImage => handleVisualize engine_message jsonInput refImage
  | SetApiKey key => handleSetApiKey key
  | JsonInputChange value => setJsonInput value
  | RefImageChange value => setRefImage value
  | GoToOutput => clickGoToOutput
  | RestoreFile file => handleRestoreFile file
  | ShowToast msg => onShowToast msg
  | Reset => handleReset
  | CopyToast msg => showToast msg toast_success
  | ImagesUpdate images => handleImagesUpdate images
  | VideosUpdate videos => handleVideosUpdate videos
  | CloseToast => closeToast
  end.

(** The states of a session that starts with the first render. *)
Inductive reachable (window : option (gmap (list N) (list N))) : AppState -> Prop :=
| reachable_initial : reachable window (initial window)
| reachable_step s e :
    reachable window s -> reachable window (exec (step e) s).

Definition run (events : list Event) (s : AppState) : AppState :=
  foldl (fun s e => exec (step e) s) s events.
End Steps.

End Session.

(** * Properties *)

(** ** Prefixes and literal deletion *)

Lemma startsWith_length p s : startsWith p s = true -> (length p <= length s)%nat.
Proof.
  revert s. induction p as [|a p IH]; intros [|b s] H; simpl in *;
    try lia; try discriminate.
  apply andb_true_iff in H as [_ H]. apply IH in H. lia.
Qed.

Lemma startsWith_app_l p s x :
  startsWith p s = true -> startsWith p (s ++ x) = true.
Proof.
  revert s. induction p as [|a p IH]; intros [|b s] H; simpl in *;
    try reflexivity; try discriminate.
  apply andb_true_iff in H as [-> H]. simpl. apply IH, H.
Qed.

Lemma startsWith_self_app p x : startsWith p (p ++ x) = true.
Proof.
  induction p as [|a p IH]; [reflexivity|].
  simpl. rewrite N.eqb_refl. exact IH.
Qed.

Lemma includes_cons_false p c s :
  includes p (c :: s) = false ->
  startsWith p (c :: s) = false /\ includes p s = false.
Proof. simpl. intros H. apply orb_false_iff in H. exact H. Qed.

Lemma delete_all_skip p s k :
  delete_all p s k = delete_all p (drop k s) 0.
Proof.
  revert k. induction s as [|c s IH]; intros [|k]; try reflexivity.
  simpl. apply IH.
Qed.

(** The scan, one match or one code unit at a time. *)
Lemma delete_all_unfold p s :
  p <> [] ->
  delete_all p s 0 =
  if startsWith p s then delete_all p (drop (length p) s) 0
  else match s with
       | [] => []
       | c :: s' => c :: delete_all p s' 0
       end.
Proof.
  intros Hp. destruct p as [|a p]; [congruence|].
  destruct s as [|c s]; [reflexivity|].
  cbn [delete_all]. destruct (startsWith (a :: p) (c :: s)); [|reflexivity].
  rewrite delete_all_skip. reflexivity.
Qed.

(** Where the pattern does not occur nothing is deleted. *)
Lemma delete_all_absent p s :
  includes p s = false -> delete_all p s 0 = s.
Proof.
  induction s as [|c s IH]; [reflexivity|].
  intros H. apply includes_cons_false in H as [H1 H2].
  cbn [delete_all]. rewrite H1, IH by exact H2. reflexivity.
Qed.

(** A pattern [p] has no match that begins in [t] and ends in [x] when no
    proper tail of [p] begins [x]. *)
Lemma startsWith_app_no_straddle x p t :
  t <> [] ->
  (forall k, (0 < k < length p)%nat -> startsWith (drop k p) x = false) ->
  startsWith p (t ++ x) = startsWith p t.
Proof.
  revert t. induction p as [|a p IH]; intros t Ht Hk; [reflexivity|].
  destruct t as [|c t]; [congruence|].
  cbn [startsWith app]. f_equal.
  destruct t as [|c' t].
  - destruct p as [|b p]; [reflexivity|].
    pose proof (Hk 1%nat ltac:(simpl; lia)) as H1. cbn [drop] in H1.
    cbn [app]. rewrite H1. reflexivity.
  - apply IH; [discriminate|].
    intros k Hlt. apply (Hk (S k)). simpl. lia.
Qed.

Lemma delete_all_app p t x :
  p <> [] ->
  (forall k, (0 < k < length p)%nat -> startsWith (drop k p) x = false) ->
  delete_all p (t ++ x) 0 = delete_all p t 0 ++ delete_all p x 0.
Proof.
  intros Hp Hk. remember (length t) as n eqn:Hn. revert t Hn.
  induction n as [n IH] using lt_wf_ind. intros t ->.
  destruct t as [|c t]; [reflexivity|].
  rewrite (delete_all_unfold p ((c :: t) ++ x) Hp),
          (delete_all_unfold p (c :: t) Hp).
  rewrite (startsWith_app_no_straddle x p (c :: t)) by (discriminate || exact Hk).
  destruct (startsWith p (c :: t)) eqn:E.
  - apply startsWith_length in E.
    rewrite drop_app_le by exact E.
    apply (IH (length (drop (length p) (c :: t)))); [|reflexivity].
    rewrite length_drop. destruct p; [congruence|]. simpl in *. lia.
  - cbn [app]. f_equal. apply (IH (length t)); [simpl; lia | reflexivity].
Qed.

(** No match begins at a code unit other than the first of the pattern. *)
Lemma delete_all_prefix a p w x :
  Forall (fun c => a <> c) w ->
  delete_all (a :: p) (w ++ x) 0 = w ++ delete_all (a :: p) x 0.
Proof.
  induction 1 as [|c w Hc Hw IH]; [reflexivity|].
  cbn [app delete_all startsWith].
  apply N.eqb_neq in Hc. rewrite Hc. cbn [andb]. f_equal. exact IH.
Qed.

(** ** Own properties *)

Lemma lookup_set_prop_eq k v props :
  lookup_prop k (set_prop k v props) = Some v.
Proof.
  induction props as [|[k' v'] r IH]; simpl.
  - rewrite bool_decide_eq_true_2; reflexivity.
  - destruct (bool_decide (k' = k)) eqn:E; simpl.
    + rewrite bool_decide_eq_true_2; reflexivity.
    + rewrite E. exact IH.
Qed.

Lemma lookup_set_prop_ne k k' v props :
  k <> k' -> lookup_prop k' (set_prop k v props) = lookup_prop k' props.
Proof.
  intros Hne. induction props as [|[k0 v0] r IH]; simpl.
  - rewrite bool_decide_eq_false_2; [reflexivity | exact Hne].
  - destruct (bool_decide (k0 = k)) eqn:E; simpl.
    + apply bool_decide_eq_true_1 in E. subst k0.
      rewrite !bool_decide_eq_false_2 by exact Hne. reflexivity.
    + destruct (bool_decide (k0 = k')); [reflexivity | exact IH].
Qed.

Lemma project_meta_not_sequence : project_meta <> storyboard_sequence.
Proof. intros H. vm_compute in H. discriminate. Qed.

Lemma reference_image_not_sequence : reference_image <> storyboard_sequence.
Proof. intros H. vm_compute in H. discriminate. Qed.

Lemma reference_image_not_meta : reference_image <> project_meta.
Proof. intros H. vm_compute in H. discriminate. Qed.

(** ** [JSON.parse]: the fuel is enough *)

Lemma cons_fst_Some {A B} (a : A) (o : option (list A * B)) l r :
  cons_fst a o = Some (l, r) ->
  exists l', o = Some (l', r) /\ l = a :: l'.
Proof.
  destruct o as [[l' r']|]; [|discriminate].
  intros H. injection H as <- <-. eauto.
Qed.

Lemma skip_ws_length s : (length (skip_ws s) <= length s)%nat.
Proof.
  induction s as [|c s IH]; [reflexivity|].
  cbn [skip_ws]. destruct (is_ws c); simpl; lia.
Qed.

Lemma skip_ws_cons_length s c r :
  skip_ws s = c :: r -> (length r < length s)%nat.
Proof.
  intros H. pose proof (skip_ws_length s) as L. rewrite H in L. simpl in L. lia.
Qed.

Lemma take_digits_length s acc n :
  (length (take_digits s acc n).2 <= length s)%nat.
Proof.
  revert acc n. induction s as [|c s IH]; intros acc n; [reflexivity|].
  cbn [take_digits]. destruct (is_digit c); [|reflexivity].
  specialize (IH (acc * 10 + (c - 48)) (S n)). simpl. lia.
Qed.

Lemma parse_exponent_length s e r :
  parse_exponent s = Some (e, r) -> (length r <= length s)%nat.
Proof.
  unfold parse_exponent. destruct s as [|c s].
  { intros H. injection H as <- <-. reflexivity. }
  destruct ((c =? ch "e") || (c =? ch "E")).
  2:{ intros H. injection H as <- <-. reflexivity. }
  assert (Hd : forall r1 sg, (length r1 <= length s)%nat ->
    match take_digits r1 0 0 with
    | (_, O, _) => None
    | (e0, S _, r2) =>
      Some (if sg : bool then (- Z.of_N e0)%Z else Z.of_N e0, r2)
    end = Some (e, r) -> (length r <= length (c :: s))%nat).
  { intros r1 sg L. pose proof (take_digits_length r1 0 0) as T.
    destruct (take_digits r1 0 0) as [[a k] r2]. destruct k; [discriminate|].
    intros H. injection H as <- <-. simpl in *. lia. }
  destruct s as [|d s]; [discriminate|].
  destruct (d =? ch "-"); [exact (Hd s true ltac:(simpl; lia))|].
  destruct (d =? ch "+"); [exact (Hd s false ltac:(simpl; lia))|].
  exact (Hd (d :: s) false ltac:(simpl; lia)).
Qed.

Lemma parse_fraction_length m s m' k r :
  parse_fraction m s = Some (m', k, r) -> (length r <= length s)%nat.
Proof.
  unfold parse_fraction. destruct s as [|c s].
  { intros H. injection H as <- <- <-. reflexivity. }
  destruct (c =? ch ".").
  - pose proof (take_digits_length s m 0) as T.
    destruct (take_digits s m 0) as [[a j] r2]. destruct j; [discriminate|].
    intros H. injection H as <- <- <-. simpl in *. lia.
  - intros H. injection H as <- <- <-. reflexivity.
Qed.

Lemma parse_number_length s n r :
  parse_number s = Some (n, r) -> (length r <= length s)%nat.
Proof.
  unfold parse_number.
  assert (Hint : forall sg s1, (length s1 <= length s)%nat ->
    match
      match s1 with
      | c :: r0 =>
        if c =? ch "0" then Some (0, r0)
        else if is_digit c then
          let '(m, _, r') := take_digits s1 0 0 in Some (m, r')
        else None
      | [] => None
      end
    with
    | None => None
    | Some (m, s2) =>
      match parse_fraction m s2 with
      | None => None
      | Some (m', fd, s3) =>
        match parse_exponent s3 with
        | None => None
        | Some (e, s4) =>
          Some ({| neg := sg; mant := m'; expo := (e - Z.of_nat fd)%Z |}, s4)
        end
      end
    end = Some (n, r) -> (length r <= length s)%nat).
  { intros sg s1 L.
    assert (Htail : forall m s2, (length s2 <= length s1)%nat ->
      match parse_fraction m s2 with
      | None => None
      | Some (m', fd, s3) =>
        match parse_exponent s3 with
        | None => None
        | Some (e, s4) =>
          Some ({| neg := sg; mant := m'; expo := (e - Z.of_nat fd)%Z |}, s4)
        end
      end = Some (n, r) -> (length r <= length s)%nat).
    { intros m s2 L2.
      destruct (parse_fraction m s2) as [[[m' fd] s3]|] eqn:Ef; [|discriminate].
      apply parse_fraction_length in Ef.
      destruct (parse_exponent s3) as [[e s4]|] eqn:Ee; [|discriminate].
      apply parse_exponent_length in Ee.
      intros H. injection H as <- <-. lia. }
    destruct s1 as [|c s1]; [discriminate|].
    destruct (c =? ch "0"); [apply Htail; simpl; lia|].
    destruct (is_digit c); [|discriminate].
    pose proof (take_digits_length (c :: s1) 0 0) as T.
    destruct (take_digits (c :: s1) 0 0) as [[m k] r']. apply Htail. exact T. }
  destruct s as [|c s]; [discriminate|].
  destruct (c =? ch "-"); [exact (Hint true s ltac:(simpl; lia))|].
  exact (Hint false (c :: s) ltac:(lia)).
Qed.

Lemma parse_string_body_length s str r :
  parse_string_body s = Some (str, r) -> (length r <= length s)%nat.
Proof.
  remember (length s) as n eqn:Hn. revert s str r Hn.
  induction n as [n IH] using lt_wf_ind. intros s str r ->.
  destruct s as [|c s]; [discriminate|].
  cbn [parse_string_body].
  destruct (c =? quote).
  { intros H. injection H as <- <-. simpl. lia. }
  destruct (c =? ch "\").
  { destruct s as [|e s]; [discriminate|].
    destruct (e =? ch "u").
    - destruct s as [|h1 [|h2 [|h3 [|h4 s]]]]; try discriminate.
      destruct (hex4 h1 h2 h3 h4); [|discriminate].
      intros H. apply cons_fst_Some in H as (l' & H & ->).
      pose proof (IH (length s) ltac:(simpl; lia) s l' r eq_refl H). simpl. lia.
    - destruct (simple_escape e); [|discriminate].
      intros H. apply cons_fst_Some in H as (l' & H & ->).
      pose proof (IH (length s) ltac:(simpl; lia) s l' r eq_refl H). simpl. lia. }
  destruct (c <? 32); [discriminate|].
  intros H. apply cons_fst_Some in H as (l' & H & ->).
  pose proof (IH (length s) ltac:(simpl; lia) s l' r eq_refl H). simpl. lia.
Qed.

Lemma expect_length p s r : expect p s = Some r -> (length r <= length s)%nat.
Proof.
  unfold expect. destruct (startsWith p s); [|discriminate].
  intros H. injection H as <-. rewrite length_drop. lia.
Qed.

Lemma parse_elements_covers bound v1 v2 f :
  covers bound v1 v2 ->
  forall s l r, parse_elements v1 f s = Some (l, r) ->
    (length r <= length s)%nat /\
    forall f', (length s <= bound)%nat -> (length s < f')%nat ->
      parse_elements v2 f' s = Some (l, r).
Proof.
  intros Hv. induction f as [|f IH]; intros s l r; [discriminate|].
  cbn [parse_elements].
  destruct (v1 s) as [[v r1]|] eqn:Ev; [|discriminate].
  destruct (Hv _ _ _ Ev) as [L1 E2].
  destruct (skip_ws r1) as [|c r2] eqn:Es; [discriminate|].
  pose proof (skip_ws_cons_length _ _ _ Es) as L2.
  destruct (c =? ch ",") eqn:Ec.
  - intros H. apply cons_fst_Some in H as (l' & H & ->).
    destruct (IH _ _ _ H) as [L3 E3]. split; [lia|].
    intros [|f'] Hb Hf; [lia|].
    cbn [parse_elements]. rewrite (E2 Hb), Es, Ec.
    rewrite (E3 f') by lia. reflexivity.
  - destruct (c =? ch "]") eqn:Ec'; [|discriminate].
    intros H. injection H as <- <-. split; [lia|].
    intros [|f'] Hb Hf; [lia|].
    cbn [parse_elements]. rewrite (E2 Hb), Es, Ec, Ec'. reflexivity.
Qed.

Lemma parse_members_covers bound v1 v2 f :
  covers bound v1 v2 ->
  forall acc s ps r, parse_members v1 f acc s = Some (ps, r) ->
    (length r <= length s)%nat /\
    forall f', (length s <= bound)%nat -> (length s < f')%nat ->
      parse_members v2 f' acc s = Some (ps, r).
Proof.
  intros Hv. induction f as [|f IH]; intros acc s ps r; [discriminate|].
  cbn [parse_members].
  destruct (skip_ws s) as [|c r0] eqn:Es; [discriminate|].
  pose proof (skip_ws_cons_length _ _ _ Es) as L0.
  destruct (c =? quote) eqn:Ec; [|discriminate].
  destruct (parse_string_body r0) as [[k r1]|] eqn:Ek; [|discriminate].
  pose proof (parse_string_body_length _ _ _ Ek) as L1.
  destruct (skip_ws r1) as [|c1 r2] eqn:Es1; [discriminate|].
  pose proof (skip_ws_cons_length _ _ _ Es1) as L2.
  destruct (c1 =? ch ":") eqn:Ec1; [|discriminate].
  destruct (v1 r2) as [[v r3]|] eqn:Ev; [|discriminate].
  destruct (Hv _ _ _ Ev) as [L3 E3].
  destruct (skip_ws r3) as [|c2 r4] eqn:Es3; [discriminate|].
  pose proof (skip_ws_cons_length _ _ _ Es3) as L4.
  destruct (c2 =? ch ",") eqn:Ec2.
  - intros H. destruct (IH _ _ _ _ H) as [L5 E5]. split; [lia|].
    intros [|f'] Hb Hf; [lia|].
    cbn [parse_members]. rewrite Es, Ec, Ek, Es1, Ec1, (E3 ltac:(lia)), Es3, Ec2.
    apply E5; lia.
  - destruct (c2 =? ch "}") eqn:Ec2'; [|discriminate].
    intros H. injection H as <- <-. split; [lia|].
    intros [|f'] Hb Hf; [lia|].
    cbn [parse_members]. rewrite Es, Ec, Ek, Es1, Ec1, (E3 ltac:(lia)), Es3, Ec2, Ec2'.
    reflexivity.
Qed.

Lemma parse_value_covers f :
  forall s v r, parse_value f s = Some (v, r) ->
    (length r <= length s)%nat /\
    forall f', (length s < f')%nat -> parse_value f' s = Some (v, r).
Proof.
  induction f as [|f IH]; intros s v r; [discriminate|].
  cbn [parse_value].
  destruct (skip_ws s) as [|c r0] eqn:Es; [discriminate|].
  pose proof (skip_ws_cons_length _ _ _ Es) as L0.
  assert (Hc : forall f', (length s < S f')%nat ->
            covers (length r0) (parse_value f) (parse_value f')).
  { intros f' Hf s1 v1 r1 H1. destruct (IH _ _ _ H1) as [L E].
    split; [exact L|]. intros Hb. apply E. lia. }
  destruct (c =? ch "{") eqn:Eo.
  { destruct (skip_ws r0) as [|c' r'] eqn:Es0; [discriminate|].
    pose proof (skip_ws_cons_length _ _ _ Es0) as L1.
    destruct (c' =? ch "}") eqn:Ec'.
    - intros H. injection H as <- <-. split; [lia|].
      intros [|f'] Hf; [lia|]. cbn [parse_value]. rewrite Es, Eo, Es0, Ec'.
      reflexivity.
    - destruct (parse_members (parse_value f) f [] r0) as [[ps r'']|] eqn:Em;
        [|discriminate].
      intros H. injection H as <- <-.
      destruct (parse_members_covers (length r0) _ _ f
                  (fun s1 v1 r1 H1 => conj (proj1 (IH _ _ _ H1)) (fun _ => H1))
                  _ _ _ _ Em) as [L2 _].
      split; [lia|].
      intros [|f'] Hf; [lia|]. cbn [parse_value]. rewrite Es, Eo, Es0, Ec'.
      destruct (parse_members_covers (length r0) _ _ f (Hc f' Hf) _ _ _ _ Em)
        as [_ E2].
      rewrite (E2 f') by lia. reflexivity. }
  destruct (c =? ch "[") eqn:Ea.
  { destruct (skip_ws r0) as [|c' r'] eqn:Es0; [discriminate|].
    pose proof (skip_ws_cons_length _ _ _ Es0) as L1.
    destruct (c' =? ch "]") eqn:Ec'.
    - intros H. injection H as <- <-. split; [lia|].
      intros [|f'] Hf; [lia|]. cbn [parse_value]. rewrite Es, Eo, Ea, Es0, Ec'.
      reflexivity.
    - destruct (parse_elements (parse_value f) f r0) as [[l r'']|] eqn:Em;
        [|discriminate].
      intros H. injection H as <- <-.
      destruct (parse_elements_covers (length r0) _ _ f
                  (fun s1 v1 r1 H1 => conj (proj1 (IH _ _ _ H1)) (fun _ => H1))
                  _ _ _ Em) as [L2 _].
      split; [lia|].
      intros [|f'] Hf; [lia|]. cbn [parse_value]. rewrite Es, Eo, Ea, Es0, Ec'.
      destruct (parse_elements_covers (length r0) _ _ f (Hc f' Hf) _ _ _ Em)
        as [_ E2].
      rewrite (E2 f') by lia. reflexivity. }
  intros H.
  assert (L : (length r <= length s)%nat).
  { destruct (c =? quote).
    { destruct (parse_string_body r0) as [[str r']|] eqn:Ek; [|discriminate].
      apply parse_string_body_length in Ek. injection H as <- <-. lia. }
    destruct (c =? ch "t").
    { destruct (expect (js "rue") r0) as [r'|] eqn:Ee; [|discriminate].
      apply expect_length in Ee. injection H as <- <-. lia. }
    destruct (c =? ch "f").
    { destruct (expect (js "alse") r0) as [r'|] eqn:Ee; [|discriminate].
      apply expect_length in Ee. injection H as <- <-. lia. }
    destruct (c =? ch "n").
    { destruct (expect (js "ull") r0) as [r'|] eqn:Ee; [|discriminate].
      apply expect_length in Ee. injection H as <- <-. lia. }
    destruct (parse_number (c :: r0)) as [[n r']|] eqn:En; [|discriminate].
    apply parse_number_length in En. injection H as <- <-. simpl in En. lia. }
  split; [exact L|].
  intros [|f'] Hf; [lia|]. cbn [parse_value]. rewrite Es, Eo, Ea. exact H.
Qed.

(** Whatever some amount of fuel reads from a text, the fuel that
    [JSON_parse] takes reads too: the bound never cuts a valid text short. *)
Lemma JSON_parse_fuel_enough text f v r :
  parse_value f text = Some (v, r) ->
  parse_value (S (length text)) text = Some (v, r).
Proof.
  intros H. apply (proj2 (parse_value_covers f _ _ _ H)). lia.
Qed.

(** ** [JSON.parse]: white space around the value *)

Lemma all_ws_headed w : all_ws w -> ws_headed w.
Proof. destruct 1; simpl; trivial. Qed.

Lemma is_ws_cases c :
  is_ws c = true -> c = 9 \/ c = 10 \/ c = 13 \/ c = 32.
Proof.
  unfold is_ws. intros H.
  repeat (apply orb_true_iff in H as [H|H]); apply N.eqb_eq in H; auto.
Qed.

Lemma skip_ws_all_ws w s : all_ws w -> skip_ws (w ++ s) = skip_ws s.
Proof.
  induction 1 as [|c w Hc Hw IH]; [reflexivity|].
  cbn [app skip_ws]. rewrite Hc. exact IH.
Qed.

Lemma skip_ws_app_cons s w c r :
  skip_ws s = c :: r -> skip_ws (s ++ w) = c :: r ++ w.
Proof.
  induction s as [|a s IH]; [discriminate|].
  cbn [app skip_ws]. destruct (is_ws a); [exact IH|].
  intros H. injection H as <- <-. reflexivity.
Qed.

Lemma skip_ws_app_nil s w :
  skip_ws s = [] -> all_ws w -> skip_ws (s ++ w) = [].
Proof.
  intros Hs Hw. induction s as [|a s IH].
  - cbn [app]. rewrite <- (app_nil_r w). rewrite skip_ws_all_ws by exact Hw.
    reflexivity.
  - cbn [app skip_ws] in *. destruct (is_ws a); [apply IH, Hs | discriminate].
Qed.

Lemma take_digits_app w s acc n :
  ws_headed w ->
  take_digits (s ++ w) acc n =
  (let '(a, k, r) := take_digits s acc n in (a, k, r ++ w)).
Proof.
  intros Hw. revert acc n. induction s as [|c s IH]; intros acc n.
  - cbn [app take_digits]. destruct w as [|c w]; [reflexivity|].
    cbn [take_digits]. simpl in Hw.
    apply is_ws_cases in Hw as [-> | [-> | [-> | ->]]]; reflexivity.
  - cbn [app take_digits]. destruct (is_digit c); [apply IH | reflexivity].
Qed.

Lemma parse_exponent_app w s e r :
  ws_headed w ->
  parse_exponent s = Some (e, r) ->
  parse_exponent (s ++ w) = Some (e, r ++ w).
Proof.
  intros Hw. unfold parse_exponent.
  destruct s as [|c s].
  - intros H. injection H as <- <-. cbn [app].
    destruct w as [|c w]; [reflexivity|]. simpl in Hw.
    apply is_ws_cases in Hw as [-> | [-> | [-> | ->]]]; reflexivity.
  - cbn [app]. destruct ((c =? ch "e") || (c =? ch "E")).
    + assert (Hd : forall r1 sg,
        match take_digits r1 0 0 with
        | (_, O, _) => None
        | (e0, S _, r2) =>
          Some (if sg : bool then (- Z.of_N e0)%Z else Z.of_N e0, r2)
        end = Some (e, r) ->
        match take_digits (r1 ++ w) 0 0 with
        | (_, O, _) => None
        | (e0, S _, r2) =>
          Some (if sg : bool then (- Z.of_N e0)%Z else Z.of_N e0, r2)
        end = Some (e, r ++ w)).
      { intros r1 sg. rewrite (take_digits_app w r1 0 0 Hw).
        destruct (take_digits r1 0 0) as [[a k] r2].
        destruct k; [discriminate|]. intros H. injection H as <- <-. reflexivity. }
      destruct s as [|d s].
      * cbn [take_digits]. discriminate.
      * cbn [app]. destruct (d =? ch "-"); [exact (Hd s true)|].
        destruct (d =? ch "+"); [exact (Hd s false)|]. exact (Hd (d :: s) false).
    + intros H. injection H as <- <-. reflexivity.
Qed.

Lemma parse_fraction_app w m s m' k r :
  ws_headed w ->
  parse_fraction m s = Some (m', k, r) ->
  parse_fraction m (s ++ w) = Some (m', k, r ++ w).
Proof.
  intros Hw. unfold parse_fraction.
  destruct s as [|c s].
  - intros H. injection H as <- <- <-. cbn [app].
    destruct w as [|c w]; [reflexivity|]. simpl in Hw.
    apply is_ws_cases in Hw as [-> | [-> | [-> | ->]]]; reflexivity.
  - cbn [app]. destruct (c =? ch ".").
    + rewrite (take_digits_app w s m 0 Hw).
      destruct (take_digits s m 0) as [[a j] r2].
      destruct j; [discriminate|]. intros H. injection H as <- <- <-. reflexivity.
    + intros H. injection H as <- <- <-. reflexivity.
Qed.

Lemma parse_number_app w s n r :
  ws_headed w ->
  parse_number s = Some (n, r) ->
  parse_number (s ++ w) = Some (n, r ++ w).
Proof.
  intros Hw. unfold parse_number.
  assert (Hint : forall sg s1,
    match
      match s1 with
      | c :: r0 =>
        if c =? ch "0" then Some (0, r0)
        else if is_digit c then
          let '(m, _, r') := take_digits s1 0 0 in Some (m, r')
        else None
      | [] => None
      end
    with
    | None => None
    | Some (m, s2) =>
      match parse_fraction m s2 with
      | None => None
      | Some (m', fd, s3) =>
        match parse_exponent s3 with
        | None => None
        | Some (e, s4) =>
          Some ({| neg := sg; mant := m'; expo := (e - Z.of_nat fd)%Z |}, s4)
        end
      end
    end = Some (n, r) ->
    match
      match s1 ++ w with
      | c :: r0 =>
        if c =? ch "0" then Some (0, r0)
        else if is_digit c then
          let '(m, _, r') := take_digits (s1 ++ w) 0 0 in Some (m, r')
        else None
      | [] => None
      end
    with
    | None => None
    | Some (m, s2) =>
      match parse_fraction m s2 with
      | None => None
      | Some (m', fd, s3) =>
        match parse_exponent s3 with
        | None => None
        | Some (e, s4) =>
          Some ({| neg := sg; mant := m'; expo := (e - Z.of_nat fd)%Z |}, s4)
        end
      end
    end = Some (n, r ++ w)).
  { intros sg s1. destruct s1 as [|c s1]; [discriminate|].
    cbn [app].
    assert (Htail : forall m s2,
      match parse_fraction m s2 with
      | None => None
      | Some (m', fd, s3) =>
        match parse_exponent s3 with
        | None => None
        | Some (e, s4) =>
          Some ({| neg := sg; mant := m'; expo := (e - Z.of_nat fd)%Z |}, s4)
        end
      end = Some (n, r) ->
      match parse_fraction m (s2 ++ w) with
      | None => None
      | Some (m', fd, s3) =>
        match parse_exponent s3 with
        | None => None
        | Some (e, s4) =>
          Some ({| neg := sg; mant := m'; expo := (e - Z.of_nat fd)%Z |}, s4)
        end
      end = Some (n, r ++ w)).
    { intros m s2.
      destruct (parse_fraction m s2) as [[[m' fd] s3]|] eqn:Ef; [|discriminate].
      rewrite (parse_fraction_app w _ _ _ _ _ Hw Ef).
      destruct (parse_exponent s3) as [[e s4]|] eqn:Ee; [|discriminate].
      rewrite (parse_exponent_app w _ _ _ Hw Ee).
      intros H. injection H as <- <-. reflexivity. }
    destruct (c =? ch "0"); [apply Htail|].
    destruct (is_digit c) eqn:Ed; [|discriminate].
    change (c :: s1 ++ w) with ((c :: s1) ++ w).
    rewrite (take_digits_app w (c :: s1) 0 0 Hw).
    destruct (take_digits (c :: s1) 0 0) as [[m k] r']. apply Htail. }
  destruct s as [|c s]; [discriminate|].
  cbn [app]. destruct (c =? ch "-"); [exact (Hint true s)|].
  exact (Hint false (c :: s)).
Qed.

Lemma parse_string_body_app w s str r :
  parse_string_body s = Some (str, r) ->
  parse_string_body (s ++ w) = Some (str, r ++ w).
Proof.
  remember (length s) as n eqn:Hn. revert s str r Hn.
  induction n as [n IH] using lt_wf_ind. intros s str r ->.
  destruct s as [|c s]; [discriminate|].
  cbn [app parse_string_body].
  destruct (c =? quote).
  { intros H. injection H as <- <-. reflexivity. }
  destruct (c =? ch "\").
  { destruct s as [|e s]; [discriminate|].
    cbn [app]. destruct (e =? ch "u").
    - destruct s as [|h1 [|h2 [|h3 [|h4 s]]]]; try discriminate.
      cbn [app]. destruct (hex4 h1 h2 h3 h4); [|discriminate].
      intros H. apply cons_fst_Some in H as (l' & H & ->).
      rewrite (IH (length s) ltac:(simpl; lia) s l' r eq_refl H). reflexivity.
    - destruct (simple_escape e); [|discriminate].
      intros H. apply cons_fst_Some in H as (l' & H & ->).
      rewrite (IH (length s) ltac:(simpl; lia) s l' r eq_refl H). reflexivity. }
  destruct (c <? 32); [discriminate|].
  intros H. apply cons_fst_Some in H as (l' & H & ->).
  rewrite (IH (length s) ltac:(simpl; lia) s l' r eq_refl H). reflexivity.
Qed.

Lemma expect_app w p s r :
  expect p s = Some r -> expect p (s ++ w) = Some (r ++ w).
Proof.
  unfold expect. destruct (startsWith p s) eqn:E; [|discriminate].
  intros H. injection H as <-.
  rewrite (startsWith_app_l _ _ _ E).
  rewrite drop_app_le by (apply startsWith_length, E). reflexivity.
Qed.

Section Suffix.
Variable w : list N.
Hypothesis Hw : all_ws w.

Lemma parse_elements_app value fuel :
  extends w value ->
  forall s l r,
    parse_elements value fuel s = Some (l, r) ->
    parse_elements value fuel (s ++ w) = Some (l, r ++ w).
Proof.
  intros Hv. induction fuel as [|f IH]; intros s l r; [discriminate|].
  cbn [parse_elements].
  destruct (value s) as [[v r1]|] eqn:Ev; [|discriminate].
  rewrite (Hv _ _ _ Ev).
  destruct (skip_ws r1) as [|c r2] eqn:Es; [discriminate|].
  rewrite (skip_ws_app_cons _ w _ _ Es).
  destruct (c =? ch ",").
  - intros H. apply cons_fst_Some in H as (l' & H & ->).
    rewrite (IH _ _ _ H). reflexivity.
  - destruct (c =? ch "]"); [|discriminate].
    intros H. injection H as <- <-. reflexivity.
Qed.

Lemma parse_members_app value fuel :
  extends w value ->
  forall acc s ps r,
    parse_members value fuel acc s = Some (ps, r) ->
    parse_members value fuel acc (s ++ w) = Some (ps, r ++ w).
Proof.
  intros Hv. induction fuel as [|f IH]; intros acc s ps r; [discriminate|].
  cbn [parse_members].
  destruct (skip_ws s) as [|c r0] eqn:Es; [discriminate|].
  rewrite (skip_ws_app_cons _ w _ _ Es).
  destruct (c =? quote); [|discriminate].
  destruct (parse_string_body r0) as [[k r1]|] eqn:Ek; [|discriminate].
  rewrite (parse_string_body_app w _ _ _ Ek).
  destruct (skip_ws r1) as [|c1 r2] eqn:Es1; [discriminate|].
  rewrite (skip_ws_app_cons _ w _ _ Es1).
  destruct (c1 =? ch ":"); [|discriminate].
  destruct (value r2) as [[v r3]|] eqn:Ev; [|discriminate].
  rewrite (Hv _ _ _ Ev).
  destruct (skip_ws r3) as [|c2 r4] eqn:Es3; [discriminate|].
  rewrite (skip_ws_app_cons _ w _ _ Es3).
  destruct (c2 =? ch ","); [apply IH|].
  destruct (c2 =? ch "}"); [|discriminate].
  intros H. injection H as <- <-. reflexivity.
Qed.

Lemma parse_value_app fuel : extends w (parse_value fuel).
Proof.
  induction fuel as [|f IH]; intros s v r; [discriminate|].
  cbn [parse_value].
  destruct (skip_ws s) as [|c r0] eqn:Es; [discriminate|].
  rewrite (skip_ws_app_cons _ w _ _ Es).
  destruct (c =? ch "{").
  { destruct (skip_ws r0) as [|c' r'] eqn:Es0; [discriminate|].
    rewrite (skip_ws_app_cons _ w _ _ Es0).
    destruct (c' =? ch "}").
    - intros H. injection H as <- <-. reflexivity.
    - destruct (parse_members (parse_value f) f [] r0) as [[ps r'']|] eqn:Em;
        [|discriminate].
      rewrite (parse_members_app _ _ IH _ _ _ _ Em).
      intros H. injection H as <- <-. reflexivity. }
  destruct (c =? ch "[").
  { destruct (skip_ws r0) as [|c' r'] eqn:Es0; [discriminate|].
    rewrite (skip_ws_app_cons _ w _ _ Es0).
    destruct (c' =? ch "]").
    - intros H. injection H as <- <-. reflexivity.
    - destruct (parse_elements (parse_value f) f r0) as [[l r'']|] eqn:Em;
        [|discriminate].
      rewrite (parse_elements_app _ _ IH _ _ _ Em).
      intros H. injection H as <- <-. reflexivity. }
  destruct (c =? quote).
  { destruct (parse_string_body r0) as [[str r']|] eqn:Ek; [|discriminate].
    rewrite (parse_string_body_app w _ _ _ Ek).
    intros H. injection H as <- <-. reflexivity. }
  destruct (c =? ch "t").
  { destruct (expect (js "rue") r0) as [r'|] eqn:Ee; [|discriminate].
    rewrite (expect_app w _ _ _ Ee). intros H. injection H as <- <-. reflexivity. }
  destruct (c =? ch "f").
  { destruct (expect (js "alse") r0) as [r'|] eqn:Ee; [|discriminate].
    rewrite (expect_app w _ _ _ Ee). intros H. injection H as <- <-. reflexivity. }
  destruct (c =? ch "n").
  { destruct (expect (js "ull") r0) as [r'|] eqn:Ee; [|discriminate].
    rewrite (expect_app w _ _ _ Ee). intros H. injection H as <- <-. reflexivity. }
  destruct (parse_number (c :: r0)) as [[n r']|] eqn:En; [|discriminate].
  change (c :: r0 ++ w) with ((c :: r0) ++ w).
  rewrite (parse_number_app w _ _ _ (all_ws_headed _ Hw) En).
  intros H. injection H as <- <-. reflexivity.
Qed.
End Suffix.

Lemma parse_elements_mono v1 v2 f :
  refines v1 v2 ->
  forall f' s x, (f <= f')%nat ->
    parse_elements v1 f s = Some x -> parse_elements v2 f' s = Some x.
Proof.
  intros Hv. induction f as [|f IH]; intros f' s x Hle; [discriminate|].
  destruct f' as [|f']; [lia|].
  cbn [parse_elements].
  destruct (v1 s) as [[v r]|] eqn:Ev; [|discriminate].
  rewrite (Hv _ _ Ev).
  destruct (skip_ws r) as [|c r']; [discriminate|].
  destruct (c =? ch ","); [|trivial].
  destruct (parse_elements v1 f r') as [y|] eqn:E; [|discriminate].
  rewrite (IH f' _ _ ltac:(lia) E). trivial.
Qed.

Lemma parse_members_mono v1 v2 f :
  refines v1 v2 ->
  forall f' acc s x, (f <= f')%nat ->
    parse_members v1 f acc s = Some x -> parse_members v2 f' acc s = Some x.
Proof.
  intros Hv. induction f as [|f IH]; intros f' acc s x Hle; [discriminate|].
  destruct f' as [|f']; [lia|].
  cbn [parse_members].
  destruct (skip_ws s) as [|c r]; [discriminate|].
  destruct (c =? quote); [|discriminate].
  destruct (parse_string_body r) as [[k r1]|]; [|discriminate].
  destruct (skip_ws r1) as [|c1 r2]; [discriminate|].
  destruct (c1 =? ch ":"); [|discriminate].
  destruct (v1 r2) as [[v r3]|] eqn:Ev; [|discriminate].
  rewrite (Hv _ _ Ev).
  destruct (skip_ws r3) as [|c2 r4]; [discriminate|].
  destruct (c2 =? ch ","); [|trivial].
  apply IH. lia.
Qed.

Lemma parse_value_mono f f' :
  (f <= f')%nat -> refines (parse_value f) (parse_value f').
Proof.
  revert f'. induction f as [|f IH]; intros f' Hle s x; [discriminate|].
  destruct f' as [|f']; [lia|].
  cbn [parse_value].
  destruct (skip_ws s) as [|c r]; [discriminate|].
  destruct (c =? ch "{").
  { destruct (skip_ws r) as [|c' r']; [discriminate|].
    destruct (c' =? ch "}"); [trivial|].
    destruct (parse_members (parse_value f) f [] r) as [y|] eqn:E; [|discriminate].
    rewrite (parse_members_mono _ _ f (IH f' ltac:(lia)) f' _ _ _ ltac:(lia) E).
    trivial. }
  destruct (c =? ch "[").
  { destruct (skip_ws r) as [|c' r']; [discriminate|].
    destruct (c' =? ch "]"); [trivial|].
    destruct (parse_elements (parse_value f) f r) as [y|] eqn:E; [|discriminate].
    rewrite (parse_elements_mono _ _ f (IH f' ltac:(lia)) f' _ _ ltac:(lia) E).
    trivial. }
  trivial.
Qed.

(** [JSON.parse] ignores white space before and after the value. *)
Lemma JSON_parse_ws w1 w2 text v :
  all_ws w1 -> all_ws w2 ->
  JSON_parse text = Some v ->
  JSON_parse (w1 ++ text ++ w2) = Some v.
Proof.
  intros H1 H2. unfold JSON_parse.
  destruct (parse_value (S (length text)) text) as [[v' r]|] eqn:E; [|discriminate].
  destruct (skip_ws r) as [|c r'] eqn:Er; [|discriminate].
  intros H. injection H as ->.
  assert (Hfuel : (S (length text) <= S (length (w1 ++ text ++ w2)))%nat)
    by (rewrite !length_app; lia).
  pose proof (parse_value_mono _ _ Hfuel _ _ E) as E1.
  pose proof (parse_value_app w2 H2 _ _ _ _ E1) as E2.
  assert (E3 : parse_value (S (length (w1 ++ text ++ w2))) (w1 ++ text ++ w2)
               = Some (v, r ++ w2)).
  { rewrite <- E2. cbn [parse_value]. rewrite skip_ws_all_ws by exact H1.
    reflexivity. }
  rewrite E3, (skip_ws_app_nil _ _ Er H2). reflexivity.
Qed.

(** ** Deleting the fence sequences *)

Lemma startsWith_fence_json_fence s :
  startsWith fence_json s = true -> startsWith fence s = true.
Proof.
  change fence_json with (fence ++ js "json").
  change fence with [96; 96; 96].
  destruct s as [|a [|b [|c s]]]; cbn [startsWith app]; try discriminate;
    rewrite ?andb_false_r; try discriminate.
  intros H. repeat (apply andb_true_iff in H as [-> H]). reflexivity.
Qed.

Lemma includes_fence_json_fence s :
  includes fence s = false -> includes fence_json s = false.
Proof.
  induction s as [|c s IH].
  - intros _. reflexivity.
  - intros H. apply includes_cons_false in H as [H1 H2].
    cbn [includes]. rewrite (IH H2), orb_false_r.
    destruct (startsWith fence_json (c :: s)) eqn:E; [|reflexivity].
    apply startsWith_fence_json_fence in E. congruence.
Qed.

(** The guard [rawInput.includes] only skips replacements that would change
    nothing: the text handed to [JSON.parse] is always the input with the
    two global deletions applied in turn. *)
Lemma strip_fences_eq s :
  strip_fences s = replace_all_empty fence (replace_all_empty fence_json s).
Proof.
  unfold strip_fences, replace_all_empty.
  destruct (includes fence s) eqn:E; [reflexivity|].
  rewrite (delete_all_absent fence_json s) by (apply includes_fence_json_fence, E).
  rewrite delete_all_absent by exact E. reflexivity.
Qed.

Lemma fence_not_nil : fence <> [].
Proof. discriminate. Qed.

Lemma fence_json_not_nil : fence_json <> [].
Proof. discriminate. Qed.

Lemma startsWith_fence_cons c s :
  startsWith fence (c :: s) = (96 =? c) && startsWith [96; 96] s.
Proof. reflexivity. Qed.

(** What is left after deleting the fences starts with two backticks only
    if the text did. *)
Lemma delete_fence_head2 s :
  startsWith [96; 96] (delete_all fence s 0) = true ->
  startsWith [96; 96] s = true.
Proof.
  rewrite (delete_all_unfold fence s fence_not_nil).
  destruct (startsWith fence s) eqn:E.
  - intros _. revert E. change fence with [96; 96; 96].
    destruct s as [|a [|b [|c s]]]; cbn [startsWith]; try discriminate;
      rewrite ?andb_false_r; try discriminate.
    intros H. repeat (apply andb_true_iff in H as [-> H]). reflexivity.
  - destruct s as [|a s]; [discriminate|].
    rewrite (delete_all_unfold fence s fence_not_nil).
    destruct (startsWith fence s) eqn:E2.
    + cbn [startsWith]. intros H. apply andb_true_iff in H as [-> _].
      revert E2. change fence with [96; 96; 96].
      destruct s as [|b s]; cbn [startsWith]; [discriminate|].
      intros H. apply andb_true_iff in H as [-> _]. reflexivity.
    + destruct s as [|b s]; cbn [startsWith]; rewrite ?andb_false_r;
        [discriminate|].
      intros H. apply andb_true_iff in H as [-> H].
      apply andb_true_iff in H as [-> _]. reflexivity.
Qed.

(** No triple backtick is left after the second deletion. *)
Lemma delete_fence_complete s : includes fence (delete_all fence s 0) = false.
Proof.
  remember (length s) as n eqn:Hn. revert s Hn.
  induction n as [n IH] using lt_wf_ind. intros s ->.
  rewrite (delete_all_unfold fence s fence_not_nil).
  destruct (startsWith fence s) eqn:E.
  - apply (IH (length (drop (length fence) s))); [|reflexivity].
    apply startsWith_length in E. rewrite length_drop.
    change (length fence) with 3%nat in *. lia.
  - destruct s as [|c s]; [reflexivity|].
    cbn [includes].
    rewrite (IH (length s)) by (simpl; lia || reflexivity).
    rewrite orb_false_r.
    destruct (startsWith fence (c :: delete_all fence s 0)) eqn:E2; [|reflexivity].
    rewrite startsWith_fence_cons in E2, E.
    apply andb_true_iff in E2 as [Hc H2].
    apply delete_fence_head2 in H2. rewrite Hc, H2 in E. discriminate.
Qed.

(** A closing fence after the text is deleted without a trace, however many
    backticks the text ends with. *)
Lemma delete_fence_app_fence u :
  delete_all fence (u ++ fence) 0 = delete_all fence u 0.
Proof.
  remember (length u) as n eqn:Hn. revert u Hn.
  induction n as [n IH] using lt_wf_ind. intros u ->.
  change fence with [96; 96; 96] in *.
  destruct u as [|c1 [|c2 [|c3 u]]].
  - reflexivity.
  - destruct (N.eqb_spec 96 c1) as [<-|H1]; [reflexivity|].
    apply N.eqb_neq in H1.
    cbn [app delete_all startsWith length Nat.pred]. rewrite !H1. reflexivity.
  - destruct (N.eqb_spec 96 c1) as [<-|H1], (N.eqb_spec 96 c2) as [<-|H2];
      try apply N.eqb_neq in H1; try apply N.eqb_neq in H2;
      cbn [app delete_all startsWith length Nat.pred];
      rewrite ?H1, ?H2; reflexivity.
  - rewrite (delete_all_unfold [96; 96; 96] ((c1 :: c2 :: c3 :: u) ++ _)
               fence_not_nil),
            (delete_all_unfold [96; 96; 96] (c1 :: c2 :: c3 :: u) fence_not_nil).
    change (startsWith [96; 96; 96] ((c1 :: c2 :: c3 :: u) ++ [96; 96; 96]))
      with (startsWith [96; 96; 96] (c1 :: c2 :: c3 :: u)).
    destruct (startsWith [96; 96; 96] (c1 :: c2 :: c3 :: u)).
    + apply (IH (length u) ltac:(simpl; lia) u eq_refl).
    + cbn [app]. f_equal.
      apply (IH (length (c2 :: c3 :: u)) ltac:(simpl; lia) (c2 :: c3 :: u) eq_refl).
Qed.

Lemma fence_json_no_straddle_fence k :
  (0 < k < length fence_json)%nat -> startsWith (drop k fence_json) fence = false.
Proof.
  intros Hk. change (length fence_json) with 7%nat in Hk.
  destruct k as [|[|[|[|[|[|[|k]]]]]]]; try lia; reflexivity.
Qed.

(** Step 2 on a text between an opening and a closing fence. *)
Lemma strip_fences_wrapped t :
  strip_fences (fence_json ++ t ++ fence) = strip_fences t.
Proof.
  rewrite !strip_fences_eq. unfold replace_all_empty.
  rewrite (delete_all_unfold fence_json (fence_json ++ t ++ fence) fence_json_not_nil).
  rewrite startsWith_self_app, drop_app_length.
  rewrite (delete_all_app fence_json t fence fence_json_not_nil
             fence_json_no_straddle_fence).
  change (delete_all fence_json fence 0) with fence.
  apply delete_fence_app_fence.
Qed.

Lemma all_ws_not_backtick w : all_ws w -> Forall (fun c => 96 <> c) w.
Proof.
  intros H. eapply Forall_impl; [exact H|].
  intros c Hc <-. discriminate.
Qed.

Lemma fence_json_no_straddle_ws (w : list N) k :
  all_ws w ->
  (0 < k < length fence_json)%nat ->
  startsWith (drop k fence_json) (w ++ fence) = false.
Proof.
  intros [|c w' Hc _] Hk; [apply fence_json_no_straddle_fence, Hk|].
  change (length fence_json) with 7%nat in Hk.
  apply is_ws_cases in Hc.
  destruct k as [|[|[|[|[|[|[|k]]]]]]]; try lia;
    destruct Hc as [-> | [-> | [-> | ->]]]; reflexivity.
Qed.

Lemma fence_no_straddle_ws c x k :
  is_ws c = true ->
  (0 < k < length fence)%nat ->
  startsWith (drop k fence) (c :: x) = false.
Proof.
  intros Hc Hk. change (length fence) with 3%nat in Hk.
  apply is_ws_cases in Hc.
  destruct k as [|[|[|k]]]; try lia;
    destruct Hc as [-> | [-> | [-> | ->]]]; reflexivity.
Qed.

(** Step 2 on a text between an opening and a closing fence, with white
    space (line ends, say) between the fences and the text. *)
Lemma strip_fences_wrapped_ws w1 w2 t :
  all_ws w1 -> all_ws w2 ->
  strip_fences (fence_json ++ w1 ++ t ++ w2 ++ fence)
  = w1 ++ strip_fences t ++ w2.
Proof.
  intros H1 H2. rewrite !strip_fences_eq. unfold replace_all_empty.
  rewrite (delete_all_unfold fence_json (fence_json ++ _) fence_json_not_nil).
  rewrite startsWith_self_app, drop_app_length.
  change fence_json with (96 :: js "``json") at 1.
  rewrite (delete_all_prefix 96 _ w1 _ (all_ws_not_backtick _ H1)).
  change (96 :: js "``json") with fence_json.
  rewrite (delete_all_app fence_json t (w2 ++ fence) fence_json_not_nil
             (fun k => fence_json_no_straddle_ws w2 k H2)).
  change fence_json with (96 :: js "``json") at 2.
  rewrite (delete_all_prefix 96 _ w2 _ (all_ws_not_backtick _ H2)).
  change (delete_all (96 :: js "``json") fence 0) with fence.
  change fence with (96 :: js "``") at 1.
  rewrite (delete_all_prefix 96 _ w1 _ (all_ws_not_backtick _ H1)).
  change (96 :: js "``") with fence.
  f_equal.
  destruct H2 as [|c w2 Hc H2].
  - cbn [app]. rewrite app_nil_r. apply delete_fence_app_fence.
  - rewrite (delete_all_app fence _ ((c :: w2) ++ fence) fence_not_nil
               (fun k => fence_no_straddle_ws c (w2 ++ fence) k Hc)).
    f_equal.
    change fence with (96 :: js "``") at 1.
    rewrite (delete_all_prefix 96 _ (c :: w2) _
               (all_ws_not_backtick _ (Forall_cons_2 _ _ _ Hc H2))).
    change (delete_all (96 :: js "``") fence 0) with (@nil N).
    apply app_nil_r.
Qed.

(** ** What the handlers compute *)

Lemma visualize_try_spec jsonInput ref s :
  visualize_try jsonInput ref s =
  match parsed_document jsonInput ref with
  | inr doc => (inr tt, visualized doc s)
  | inl e => (inl e, s)
  end.
Proof.
  unfold visualize_try, parsed_document, JSON_parse_or_throw, bind, lift, throw, ret.
  destruct (JSON_parse (strip_fences jsonInput)) as [v|]; [|reflexivity].
  destruct (get v storyboard_sequence) as [e|seq]; [reflexivity|].
  destruct (truthy_opt seq), (Array_isArray seq); try reflexivity.
  destruct (get v project_meta) as [e|meta]; [reflexivity|].
  destruct (truthy_opt meta), (truthy ref); reflexivity.
Qed.

Lemma handleVisualize_spec em jsonInput ref s :
  handleVisualize em jsonInput ref s =
  (inr tt,
   match parsed_document jsonInput ref with
   | inr doc => visualized doc (exec (setError None) s)
   | inl e => visualize_failed em e s
   end).
Proof.
  unfold handleVisualize, bind. unfold setError at 1, modify at 1.
  unfold try_catch. rewrite visualize_try_spec.
  destruct (parsed_document jsonInput ref); reflexivity.
Qed.

(** A value with a [storyboard_sequence] array is accepted; the stored
    document is that value with the default meta and the reference image
    put in where the code does so. *)
Lemma parsed_document_accepts jsonInput ref v l :
  JSON_parse (strip_fences jsonInput) = Some v ->
  get v storyboard_sequence = inr (Some (JArray l)) ->
  exists props meta,
    v = JObject props /\ get v project_meta = inr meta /\
    parsed_document jsonInput ref =
    inr (let withMeta := if truthy_opt meta then v
                         else set v project_meta default_meta in
         if truthy ref then set withMeta reference_image ref else withMeta).
Proof.
  intros Hp Hs. unfold parsed_document. rewrite Hp, Hs. simpl.
  destruct v as [|b|n|str|l'|props]; try discriminate.
  exists props, (lookup_prop project_meta props). repeat split.
Qed.

Lemma handleRestoreData_spec d images videos s :
  d <> JNull ->
  handleRestoreData d images videos s = (inr tt, restored d images videos s).
Proof.
  intros Hd. unfold handleRestoreData, restored, bind, lift, ret.
  destruct d as [|b|n|str|l|props]; try reflexivity; [congruence|].
  simpl. destruct (lookup_prop reference_image props) as [r|]; [|reflexivity].
  destruct (truthy r); reflexivity.
Qed.

Lemma restore_try_spec content s :
  match backup_payload content with
  | Some (d, images, videos) =>
    restore_try content s =
    (inr tt,
     exec (onShowToast (js "백업 데이터 복원 완료! 스토리보드로 이동합니다."))
          (restored d images videos s))
  | None => exists e, restore_try content s = (inl e, s)
  end.
Proof.
  unfold backup_payload, restore_try, JSON_parse_or_throw.
  destruct (JSON_parse content) as [v|]; [|eexists; reflexivity].
  unfold bind, ret, lift, throw.
  destruct v as [|b|n|str|l|props]; try (eexists; reflexivity).
  cbn [get].
  destruct (lookup_prop (js "data") props) as [d|]; [|eexists; reflexivity].
  cbn [truthy_opt].
  destruct (truthy d) eqn:Ed; [|eexists; reflexivity].
  cbn [negb andb get_opt].
  destruct d as [|b|n|str|l|dprops]; try discriminate;
    try (eexists; reflexivity).
  cbn [get].
  destruct (truthy_opt (lookup_prop storyboard_sequence dprops)) eqn:Es;
    cbn [negb]; [|eexists; reflexivity].
  unfold onRestoreData. cbn [val_or]. rewrite Ed.
  rewrite handleRestoreData_spec by discriminate. reflexivity.
Qed.

(** What [reader.onload] does with the text of the chosen file. *)
Lemma restore_onload_spec content s :
  restore_onload content s =
  (inr tt,
   match backup_payload content with
   | Some (d, images, videos) =>
     exec (onShowToast (js "백업 데이터 복원 완료! 스토리보드로 이동합니다."))
          (restored d images videos s)
   | None =>
     exec (onShowToast (js "백업 파일 복원 실패. 파일 형식을 확인해주세요.")) s
   end).
Proof.
  unfold restore_onload, try_catch.
  pose proof (restore_try_spec content s) as H.
  destruct (backup_payload content) as [[[d i] v]|].
  - rewrite H. reflexivity.
  - destruct H as [e ->]. reflexivity.
Qed.

Lemma backup_payload_inv content d images videos :
  backup_payload content = Some (d, images, videos) ->
  exists backupData oi ov,
    JSON_parse content = Some backupData /\
    get backupData (js "data") = inr (Some d) /\
    get backupData (js "generatedImages") = inr oi /\
    get backupData (js "videoUrls") = inr ov /\
    images = val_or oi (JObject []) /\ videos = val_or ov (JObject []).
Proof.
  unfold backup_payload.
  destruct (JSON_parse content) as [[|b|n|str|l|props]|]; try discriminate.
  destruct (lookup_prop (js "data") props) as [d'|] eqn:Ed; [|discriminate].
  destruct (truthy d' && _); [|discriminate].
  intros H. injection H as -> <- <-.
  exists (JObject props), (lookup_prop (js "generatedImages") props),
         (lookup_prop (js "videoUrls") props).
  simpl. rewrite Ed. repeat split.
Qed.

Lemma restore_try_success content s :
  outcome (restore_try content) s = inr tt ->
  exists d images videos, backup_payload content = Some (d, images, videos).
Proof.
  intros H. pose proof (restore_try_spec content s) as T.
  destruct (backup_payload content) as [[[d i] v]|]; [eauto|].
  destruct T as [e T]. unfold outcome in H. rewrite T in H. discriminate.
Qed.

(** A backup is rejected when it has no [data], or when [data] has no
    [storyboard_sequence]: the state keeps its document, view and
    registries. *)
Lemma restore_rejects_missing_sequence content backupData s :
  JSON_parse content = Some backupData ->
  (get backupData (js "data") = inr None \/
   exists d, get backupData (js "data") = inr (Some d) /\
             get d storyboard_sequence = inr None) ->
  backup_payload content = None /\
  same_session s (exec (restore_onload content) s).
Proof.
  intros Hp Hmiss.
  assert (Hb : backup_payload content = None).
  { unfold backup_payload. rewrite Hp.
    destruct backupData as [|b|n|str|l|props]; try reflexivity.
    simpl in Hmiss. destruct Hmiss as [H | (d & H & Hd)].
    - injection H as ->. reflexivity.
    - injection H as ->.
      destruct d as [|b|n|str|l|dprops]; try discriminate;
        try (rewrite andb_false_r; reflexivity).
      simpl in Hd. injection Hd as ->. rewrite andb_false_r. reflexivity. }
  split; [exact Hb|].
  unfold exec. rewrite restore_onload_spec, Hb. repeat split.
Qed.

(** A backup without [generatedImages] and [videoUrls] is restored with
    both registries empty. *)
Example restore_defaults_registries :
  let content := json_text "{'data':{'storyboard_sequence':[]}}" in
  let s := exec (handleRestoreFile (Some content)) (initial None) in
  viewMode s = output /\
  data s = JObject [(storyboard_sequence, JArray [])] /\
  generatedImages s = JObject [] /\ videoUrls s = JObject [].
Proof. vm_compute. repeat split. Qed.

(** Without a [window] nothing is stored. *)
Lemma credential_without_window s k :
  localStorage s = None ->
  localStorage (exec (handleSetApiKey k) s) = None /\
  userApiKey (exec (handleSetApiKey k) s) = k.
Proof.
  intros H. destruct k; unfold handleSetApiKey, exec; simpl; rewrite H; split; reflexivity.
Qed.

(** ** The media registries *)

(** C1, as the code has it: [handleImagesUpdate] and [handleVideosUpdate]
    store the mapping they are given in place of the registry. The new
    registry answers at every index exactly as the given mapping does, so it
    has the update's value wherever the update has one, and an earlier entry
    is still there only if the update itself carries it. The other registry
    is not touched. *)
Theorem update_replaces_registry (s : AppState) (images videos : JSValue) :
  let si := exec (handleImagesUpdate images) s in
  let sv := exec (handleVideosUpdate videos) s in
  generatedImages si = images /\ videoUrls si = videoUrls s /\
  videoUrls sv = videos /\ generatedImages sv = generatedImages s /\
  (forall k, entry (generatedImages si) k = entry images k) /\
  (forall k, entry (videoUrls sv) k = entry videos k) /\
  (forall k v, entry (generatedImages s) k = Some v -> entry images k = None ->
               entry (generatedImages si) k = None) /\
  (forall k v, entry (videoUrls s) k = Some v -> entry videos k = None ->
               entry (videoUrls sv) k = None).
Proof. cbv zeta. repeat split; intros; assumption. Qed.

(** In [sample_session] the image at index 0 is gone after an update that
    carries index 5 only. *)
Lemma update_replaces_registry_witness :
  let update := JObject [(js "5", JString (js "Y"))] in
  entry (generatedImages sample_session) (js "0") = Some (JString (js "a")) /\
  entry update (js "0") = None /\
  entry (generatedImages (exec (handleImagesUpdate update) sample_session)) (js "0")
    = None.
Proof.
  cbv zeta.
  assert (H1 : entry (generatedImages sample_session) (js "0")
               = Some (JString (js "a"))) by reflexivity.
  assert (H2 : entry (JObject [(js "5", JString (js "Y"))]) (js "0") = None)
    by reflexivity.
  split; [exact H1|]. split; [exact H2|].
  pose proof (update_replaces_registry sample_session
                (JObject [(js "5", JString (js "Y"))]) JNull) as T.
  cbv zeta in T. destruct T as (_ & _ & _ & _ & _ & _ & T & _).
  exact (T _ _ H1 H2).
Defined.

(** C1 fails as stated: from the empty registry, the update [{2: X}]
    followed by the update [{5: Y}] leaves a registry that has index 5 and
    has lost index 2, for images and for videos alike. *)
Lemma update_drops_earlier_entry :
  let X := JString (js "X") in
  let Y := JString (js "Y") in
  let first := JObject [(js "2", X)] in
  let second := JObject [(js "5", Y)] in
  let s1 := exec (handleImagesUpdate first) (initial None) in
  let s2 := exec (handleImagesUpdate second) s1 in
  let t1 := exec (handleVideosUpdate first) (initial None) in
  let t2 := exec (handleVideosUpdate second) t1 in
  generatedImages (initial None) = JObject [] /\
  entry (generatedImages s1) (js "2") = Some X /\
  entry second (js "2") = None /\
  entry (generatedImages s2) (js "5") = Some Y /\
  entry (generatedImages s2) (js "2") = None /\
  entry (videoUrls t1) (js "2") = Some X /\
  entry (videoUrls t2) (js "2") = None.
Proof. vm_compute. repeat split. Qed.

(** ** Restoring a backup *)

(** C2, the code at the failing input: a backup whose
    [data.storyboard_sequence] is the string [x], not an array, is accepted;
    the restore stores it as the document and opens the output view. The
    sibling check in [handleVisualize] rejects the same value with
    [Array.isArray]. *)
Theorem restore_accepts_non_array_sequence :
  let content := json_text "{'data':{'storyboard_sequence':'x'}}" in
  let s := exec (handleRestoreFile (Some content)) (initial None) in
  JSON_parse content
    = Some (JObject [(js "data",
                      JObject [(storyboard_sequence, JString (js "x"))])]) /\
  Array_isArray (Some (JString (js "x"))) = false /\
  viewMode s = output /\
  data s = JObject [(storyboard_sequence, JString (js "x"))] /\
  toast s = {| visible := true;
               message := js "백업 데이터 복원 완료! 스토리보드로 이동합니다.";
               type := toast_success |} /\
  (forall em, exists e,
     parsed_document (json_text "{'storyboard_sequence':'x'}") JNull = inl (Error e) /\
     data (exec (handleVisualize em (json_text "{'storyboard_sequence':'x'}") JNull)
                (initial None)) = JNull).
Proof.
  cbv zeta. repeat split; try (vm_compute; reflexivity).
  intros em. eexists. split; [vm_compute; reflexivity|].
  unfold exec. rewrite handleVisualize_spec.
  replace (parsed_document _ _) with
    (@inl JSError JSValue (Error (js "데이터 구조 오류: 'storyboard_sequence' 배열이 없습니다.")))
    by (vm_compute; reflexivity).
  reflexivity.
Qed.

(** C10, as the code has it: a restore that succeeds replaces the document
    and both registries together (a registry missing from the file becomes
    the empty mapping), opens the output view, and overwrites the
    reference-image slot with the document's [reference_image] when that
    field is present and truthy (for a string: not empty); when the field
    is absent or falsy the slot keeps its value. *)
Theorem restore_reference_image (s : AppState) (content : list N)
  (Hok : outcome (restore_try content) s = inr tt) :
  let s' := exec (handleRestoreFile (Some content)) s in
  exists backupData d oi ov,
    JSON_parse content = Some backupData /\
    get backupData (js "data") = inr (Some d) /\
    get backupData (js "generatedImages") = inr oi /\
    get backupData (js "videoUrls") = inr ov /\
    data s' = d /\
    generatedImages s' = val_or oi (JObject []) /\
    videoUrls s' = val_or ov (JObject []) /\
    viewMode s' = output /\
    (forall r, get d reference_image = inr (Some r) -> truthy r = true ->
               refImage s' = r) /\
    (forall r, get d reference_image = inr (Some r) -> truthy r = false ->
               refImage s' = refImage s) /\
    (get d reference_image = inr None -> refImage s' = refImage s) /\
    (error s' = error s /\ jsonInput s' = jsonInput s /\
     userApiKey s' = userApiKey s /\ localStorage s' = localStorage s).
Proof.
  cbv zeta. destruct (restore_try_success _ _ Hok) as (d & i & v & Hb).
  destruct (backup_payload_inv _ _ _ _ Hb) as (bd & oi & ov & Hp & Hd & Hi & Hv & -> & ->).
  exists bd, d, oi, ov.
  unfold handleRestoreFile, exec.
  rewrite restore_onload_spec, Hb. simpl.
  repeat split; try assumption.
  - intros r Hr Ht. rewrite Hr, Ht. reflexivity.
  - intros r Hr Ht. rewrite Hr, Ht. reflexivity.
  - intros Hr. rewrite Hr. reflexivity.
Qed.

(** A backup with a reference image and one generated image. *)
Lemma restore_reference_image_witness :
  let content :=
    json_text "{'data':{'storyboard_sequence':[],'reference_image':'data:image/png;base64,AA'},'generatedImages':{'0':'a'}}" in
  let s' := exec (handleRestoreFile (Some content)) (initial None) in
  outcome (restore_try content) (initial None) = inr tt /\
  exists backupData d,
    JSON_parse content = Some backupData /\
    get backupData (js "data") = inr (Some d) /\
    data s' = d.
Proof.
  cbv zeta.
  assert (H : outcome (restore_try
    (json_text "{'data':{'storyboard_sequence':[],'reference_image':'data:image/png;base64,AA'},'generatedImages':{'0':'a'}}"))
    (initial None) = inr tt) by (vm_compute; reflexivity).
  split; [exact H|].
  destruct (restore_reference_image _ _ H)
    as (bd & d & oi & ov & Hp & Hd & _ & _ & Hdata & _).
  exists bd, d. repeat split; assumption.
Defined.

(** C10 fails as stated: the backup's document has a [reference_image]
    field, the empty string, and the restore succeeds, yet the slot keeps
    the image it held instead of taking the field's value. *)
Lemma restore_keeps_slot_on_empty_reference_image :
  let content := json_text "{'data':{'storyboard_sequence':[],'reference_image':''}}" in
  let s := exec (setRefImage (JString (js "old"))) (initial None) in
  let s' := exec (handleRestoreFile (Some content)) s in
  viewMode s' = output /\
  get (data s') reference_image = inr (Some (JString [])) /\
  refImage s' = JString (js "old") /\
  refImage s' <> JString [].
Proof. cbv zeta. repeat split; try (vm_compute; reflexivity). vm_compute. discriminate. Qed.

(** ** Parsing a script *)

(** C3, as the code has it: when the text that is left after the fence
    deletion of step 2 is well-formed JSON whose value has a
    [storyboard_sequence] array and no [project_meta], the [try] block ends
    normally, the output view opens, and the [project_meta] of the stored
    document is exactly the object with [title] 제목 없는 프로젝트 and
    [logline] 로그라인이 제공되지 않았습니다. *)
Theorem visualize_default_meta
  (em : JSError -> list N) (s : AppState) (jsonInput : list N) (ref v : JSValue)
  (l : list JSValue)
  (Hparse : JSON_parse (strip_fences jsonInput) = Some v)
  (Hseq : get v storyboard_sequence = inr (Some (JArray l)))
  (Hmeta : get v project_meta = inr None) :
  let s' := exec (handleVisualize em jsonInput ref) s in
  outcome (visualize_try jsonInput ref) s = inr tt /\
  viewMode s' = output /\ error s' = None /\
  get (data s') project_meta =
    inr (Some (JObject [ (js "title", JString (js "제목 없는 프로젝트"));
                         (js "logline", JString (js "로그라인이 제공되지 않았습니다.")) ])).
Proof.
  cbv zeta.
  destruct (parsed_document_accepts jsonInput ref v l Hparse Hseq)
    as (props & meta & -> & Hm & Hdoc).
  rewrite Hmeta in Hm. injection Hm as <-.
  unfold outcome, exec. rewrite visualize_try_spec, handleVisualize_spec, Hdoc.
  cbv zeta. simpl fst. simpl snd.
  split; [reflexivity|]. split; [reflexivity|]. split; [reflexivity|].
  unfold visualized, data. simpl truthy_opt. cbv iota.
  destruct (truthy ref); cbn [get set];
    rewrite ?(lookup_set_prop_ne _ _ _ _ reference_image_not_meta),
            lookup_set_prop_eq;
    reflexivity.
Qed.

(** A sequence of one entry and no meta. *)
Lemma visualize_default_meta_witness :
  let text := json_text "{'storyboard_sequence':[{'id':1}]}" in
  let one := JObject [(js "id", JNumber {| neg := false; mant := 1; expo := 0 |})] in
  JSON_parse (strip_fences text) = Some (JObject [(storyboard_sequence, JArray [one])]) /\
  get (data (exec (handleVisualize (fun _ => []) text JNull) (initial None))) project_meta =
    inr (Some (JObject [ (js "title", JString (js "제목 없는 프로젝트"));
                         (js "logline", JString (js "로그라인이 제공되지 않았습니다.")) ])).
Proof.
  cbv zeta.
  assert (H : JSON_parse (strip_fences (json_text "{'storyboard_sequence':[{'id':1}]}"))
    = Some (JObject [(storyboard_sequence,
         JArray [JObject [(js "id", JNumber {| neg := false; mant := 1; expo := 0 |})]])]))
    by (vm_compute; reflexivity).
  split; [exact H|].
  refine (proj2 (proj2 (proj2
    (visualize_default_meta (fun _ => []) (initial None) _ JNull _ _ H _ _))));
    vm_compute; reflexivity.
Defined.

(** C3 fails as stated: the input parses, has a [storyboard_sequence] array
    and no [project_meta]; the stored document's [project_meta] is not the
    object with [title] Untitled Project and [logline] No logline
    provided. *)
Lemma visualize_meta_not_english :
  let text := json_text "{'storyboard_sequence':[]}" in
  let s' := exec (handleVisualize (fun _ => []) text JNull) (initial None) in
  JSON_parse text = Some (JObject [(storyboard_sequence, JArray [])]) /\
  get (JObject [(storyboard_sequence, JArray [])]) project_meta = inr None /\
  viewMode s' = output /\
  get (data s') project_meta <>
    inr (Some (JObject [ (js "title", JString (js "Untitled Project"));
                         (js "logline", JString (js "No logline provided.")) ])).
Proof.
  cbv zeta. repeat split; try (vm_compute; reflexivity).
  vm_compute. discriminate.
Qed.

(** C4, as the code has it: when the text that is left after the fence
    deletion of step 2 (the input itself when it has no triple backtick) is
    well-formed JSON whose value has a [storyboard_sequence] array, the
    [try] block ends normally, the output view opens with an empty error
    slot, and the [storyboard_sequence] of the stored document is that
    array: same length, same elements, same order. *)
Theorem visualize_keeps_sequence
  (em : JSError -> list N) (s : AppState) (jsonInput : list N) (ref v : JSValue)
  (l : list JSValue)
  (Hparse : JSON_parse (strip_fences jsonInput) = Some v)
  (Hseq : get v storyboard_sequence = inr (Some (JArray l))) :
  let s' := exec (handleVisualize em jsonInput ref) s in
  outcome (visualize_try jsonInput ref) s = inr tt /\
  viewMode s' = output /\ error s' = None /\
  get (data s') storyboard_sequence = inr (Some (JArray l)) /\
  (includes fence jsonInput = false -> strip_fences jsonInput = jsonInput).
Proof.
  cbv zeta.
  destruct (parsed_document_accepts jsonInput ref v l Hparse Hseq)
    as (props & meta & -> & Hm & Hdoc).
  unfold outcome, exec. rewrite visualize_try_spec, handleVisualize_spec, Hdoc.
  cbv zeta. simpl fst. simpl snd.
  split; [reflexivity|]. split; [reflexivity|]. split; [reflexivity|].
  split.
  - unfold visualized, data.
    destruct (truthy ref), (truthy_opt meta); cbn [get set] in *;
      rewrite ?(lookup_set_prop_ne _ _ _ _ reference_image_not_sequence),
              ?(lookup_set_prop_ne _ _ _ _ project_meta_not_sequence); exact Hseq.
  - intros H. unfold strip_fences. rewrite H. reflexivity.
Qed.

(** A sequence of two entries. *)
Lemma visualize_keeps_sequence_witness :
  let text := json_text "{'storyboard_sequence':[{'id':1},{'id':2}]}" in
  let one := JObject [(js "id", JNumber {| neg := false; mant := 1; expo := 0 |})] in
  let two := JObject [(js "id", JNumber {| neg := false; mant := 2; expo := 0 |})] in
  JSON_parse (strip_fences text) = Some (JObject [(storyboard_sequence, JArray [one; two])]) /\
  get (data (exec (handleVisualize (fun _ => []) text JNull) (initial None)))
      storyboard_sequence = inr (Some (JArray [one; two])).
Proof.
  cbv zeta.
  assert (H : JSON_parse (strip_fences (json_text "{'storyboard_sequence':[{'id':1},{'id':2}]}"))
    = Some (JObject [(storyboard_sequence,
         JArray [JObject [(js "id", JNumber {| neg := false; mant := 1; expo := 0 |})];
                 JObject [(js "id", JNumber {| neg := false; mant := 2; expo := 0 |})]])]))
    by (vm_compute; reflexivity).
  split; [exact H|].
  refine (proj1 (proj2 (proj2 (proj2
    (visualize_keeps_sequence (fun _ => []) (initial None) _ JNull _ _ H _))))).
  vm_compute; reflexivity.
Defined.

(** C4 fails as stated: the input is well-formed JSON whose
    [storyboard_sequence] is an array holding the string of three
    backticks; the stored document's sequence holds the empty string
    instead. With a second, fenced key the lengths differ as well. *)
Lemma visualize_alters_sequence :
  let text := json_text "{'storyboard_sequence':['```']}" in
  let text2 := json_text "{'storyboard_sequence':[],'```storyboard_sequence':[1,2]}" in
  let run t := exec (handleVisualize (fun _ => []) t JNull) (initial None) in
  JSON_parse text = Some (JObject [(storyboard_sequence, JArray [JString (js "```")])]) /\
  viewMode (run text) = output /\
  get (data (run text)) storyboard_sequence = inr (Some (JArray [JString []])) /\
  JString [] <> JString (js "```") /\
  (exists v, JSON_parse text2 = Some v /\
             get v storyboard_sequence = inr (Some (JArray []))) /\
  (exists a b, get (data (run text2)) storyboard_sequence
               = inr (Some (JArray [a; b]))).
Proof.
  cbv zeta. repeat split; try (vm_compute; reflexivity).
  - vm_compute. discriminate.
  - eexists. split; vm_compute; reflexivity.
  - eexists _, _. vm_compute. reflexivity.
Qed.

(** C9: the text handed to [JSON.parse] is the input with every leftmost
    match of the backticks-json sequence deleted and then every leftmost
    match of the triple backtick deleted, wherever they stand; no triple
    backtick is left in it. A well-formed JSON input whose string field
    holds a triple backtick therefore reaches the parser changed, and the
    parsed field differs from the one written. *)
Theorem fence_deletion_is_global :
  (forall raw,
     strip_fences raw
     = replace_all_empty fence (replace_all_empty fence_json raw)) /\
  (forall raw,
     includes fence (strip_fences raw) = false /\
     includes fence_json (strip_fences raw) = false) /\
  (let raw := json_text "{'storyboard_sequence':[],'note':'a```b ```json'}" in
   JSON_parse raw
     = Some (JObject [(storyboard_sequence, JArray []);
                      (js "note", JString (js "a```b ```json"))]) /\
   strip_fences raw = json_text "{'storyboard_sequence':[],'note':'ab '}" /\
   strip_fences raw <> raw /\
   JSON_parse (strip_fences raw)
     = Some (JObject [(storyboard_sequence, JArray []);
                      (js "note", JString (js "ab "))]) /\
   data (exec (handleVisualize (fun _ => []) raw JNull) (initial None))
     = JObject [(storyboard_sequence, JArray []);
                (js "note", JString (js "ab "));
                (project_meta, default_meta)]).
Proof.
  split; [exact strip_fences_eq|]. split.
  - intros raw. rewrite strip_fences_eq. unfold replace_all_empty.
    pose proof (delete_fence_complete (delete_all fence_json raw 0)) as H.
    split; [exact H | apply includes_fence_json_fence, H].
  - cbv zeta. repeat split; try (vm_compute; reflexivity).
    vm_compute. discriminate.
Qed.

(** C5: a text between the opening fence with its json tag and the closing
    fence is handled exactly as the text alone: the same document and view
    on success, the same error on failure. When the text alone is accepted,
    the same holds with white space (line ends) between the fences and the
    text. *)
Theorem fenced_text_parses_identically
  (em : JSError -> list N) (s : AppState) (t : list N) (ref : JSValue) :
  handleVisualize em (fence_json ++ t ++ fence) ref s
    = handleVisualize em t ref s /\
  (forall w1 w2,
     all_ws w1 -> all_ws w2 ->
     outcome (visualize_try t ref) s = inr tt ->
     handleVisualize em (fence_json ++ w1 ++ t ++ w2 ++ fence) ref s
       = handleVisualize em t ref s).
Proof.
  split.
  - rewrite !handleVisualize_spec. unfold parsed_document.
    rewrite strip_fences_wrapped. reflexivity.
  - intros w1 w2 H1 H2 Hok.
    unfold outcome in Hok. rewrite visualize_try_spec in Hok.
    rewrite !handleVisualize_spec. f_equal.
    unfold parsed_document in *.
    rewrite (strip_fences_wrapped_ws w1 w2 t H1 H2).
    destruct (JSON_parse (strip_fences t)) as [v|] eqn:Ep; [|discriminate].
    rewrite (JSON_parse_ws w1 w2 _ _ H1 H2 Ep). reflexivity.
Qed.

(** A fence on lines of its own around an empty sequence. *)
Lemma fenced_text_parses_identically_witness :
  let t := json_text "{'storyboard_sequence':[]}" in
  let em : JSError -> list N := fun _ => [] in
  (all_ws [10] /\ outcome (visualize_try t JNull) (initial None) = inr tt) /\
  handleVisualize em (fence_json ++ [10] ++ t ++ [10] ++ fence) JNull (initial None)
    = handleVisualize em t JNull (initial None).
Proof.
  cbv zeta.
  assert (Hws : all_ws [10]) by (repeat constructor).
  assert (Hok : outcome (visualize_try (json_text "{'storyboard_sequence':[]}") JNull)
                        (initial None) = inr tt) by (vm_compute; reflexivity).
  split; [split; assumption|].
  exact (proj2 (fenced_text_parses_identically (fun _ => []) (initial None) _ JNull)
               [10] [10] Hws Hws Hok).
Defined.

(** ** Failures *)

(** C6: when the [try] block of [handleVisualize] throws (a syntax error,
    a missing or non-array sequence, a property read on [null]), the
    document, the view mode, both registries, the raw input text, the
    reference image, the credential and the store are what they were; the
    error slot takes the message and a toast is shown. When the [try] block
    of the restore throws, the same slots and the error slot are what they
    were; a toast is shown. *)
Theorem failure_preserves_session (em : JSError -> list N) (s : AppState) :
  (forall jsonInput ref s1 e,
     outcome (visualize_try jsonInput ref) s1 = inl e ->
     let s' := exec (handleVisualize em jsonInput ref) s in
     same_session s s' /\
     error s' = Some (js "오류: " ++ message_of em e) /\
     toast s' = {| visible := true;
                   message := js "올바르지 않은 JSON 형식입니다. 입력을 확인해주세요.";
                   type := toast_error |}) /\
  (forall content s1 e,
     outcome (restore_try content) s1 = inl e ->
     let s' := exec (handleRestoreFile (Some content)) s in
     same_session s s' /\
     error s' = error s /\
     toast s' = {| visible := true;
                   message := js "백업 파일 복원 실패. 파일 형식을 확인해주세요.";
                   type := toast_success |}).
Proof.
  split.
  - intros j r s1 e H. cbv zeta. unfold outcome in H.
    rewrite visualize_try_spec in H.
    unfold exec. rewrite handleVisualize_spec.
    destruct (parsed_document j r) as [e'|doc]; [|discriminate].
    injection H as ->. repeat split.
  - intros content s1 e H. cbv zeta. unfold outcome in H.
    pose proof (restore_try_spec content s1) as T.
    unfold handleRestoreFile, exec. rewrite restore_onload_spec.
    destruct (backup_payload content) as [[[d i] v]|].
    + rewrite T in H. discriminate.
    + repeat split.
Qed.

(** A text that is not JSON, and a backup without a sequence, met in
    [sample_session]. *)
Lemma failure_preserves_session_witness :
  let em : JSError -> list N := fun _ => js "Unexpected token" in
  (outcome (visualize_try (js "not json") JNull) sample_session
     = inl (SyntaxError (js "not json")) /\
   same_session sample_session
     (exec (handleVisualize em (js "not json") JNull) sample_session)) /\
  (outcome (restore_try (json_text "{'data':{}}")) sample_session
     = inl (Error (js "유효하지 않은 백업 파일입니다.")) /\
   same_session sample_session
     (exec (handleRestoreFile (Some (json_text "{'data':{}}"))) sample_session)).
Proof.
  cbv zeta. split.
  - assert (H : outcome (visualize_try (js "not json") JNull) sample_session
                = inl (SyntaxError (js "not json")))
      by (vm_compute; reflexivity).
    split; [exact H|].
    exact (proj1 (proj1 (failure_preserves_session _ _) _ _ _ _ H)).
  - assert (H : outcome (restore_try (json_text "{'data':{}}")) sample_session
                = inl (Error (js "유효하지 않은 백업 파일입니다.")))
      by (vm_compute; reflexivity).
    split; [exact H|].
    exact (proj1 (proj2 (failure_preserves_session
                           (fun _ => js "Unexpected token") _) _ _ _ H)).
Defined.

(** ** Reset and navigation *)

(** C7: in the output view, [handleReset] changes the view mode to [input]
    and empties the error slot, nothing else; going back to the output view
    with [onGoToOutput] then changes the view mode only, so the state after
    the round trip is the state before it with an empty error slot: the
    document, both registries, the raw input text and the reference image
    are those held before. The side-bar button runs [onGoToOutput] when a
    document is held and does nothing otherwise. *)
Theorem reset_round_trip (s : AppState) (Hout : viewMode s = output) :
  let s1 := exec handleReset s in
  let s2 := exec onGoToOutput s1 in
  s1 = {| viewMode := input; data := data s; error := None;
          userApiKey := userApiKey s; jsonInput := jsonInput s;
          refImage := refImage s; generatedImages := generatedImages s;
          videoUrls := videoUrls s; toast := toast s;
          localStorage := localStorage s |} /\
  s2 = {| viewMode := viewMode s; data := data s; error := None;
          userApiKey := userApiKey s; jsonInput := jsonInput s;
          refImage := refImage s; generatedImages := generatedImages s;
          videoUrls := videoUrls s; toast := toast s;
          localStorage := localStorage s |} /\
  same_session s s2 /\
  exec clickGoToOutput s1 = (if hasData s then s2 else s1).
Proof.
  cbv zeta. unfold same_session.
  destruct s as [vm d e k j r gi vu t ls]; simpl in *. subst vm.
  repeat split. unfold clickGoToOutput, hasData, exec; simpl.
  destruct d; reflexivity.
Qed.

(** The round trip from [sample_session]. *)
Lemma reset_round_trip_witness :
  viewMode sample_session = output /\
  same_session sample_session
    (exec onGoToOutput (exec handleReset sample_session)).
Proof.
  split; [reflexivity|].
  exact (proj1 (proj2 (proj2 (reset_round_trip sample_session eq_refl)))).
Defined.

(** ** The credential *)

(** C8: where the browser provides [localStorage], [handleSetApiKey k] makes
    [k] the credential held in the state, stores [k] under the key
    [gemini_api_key] when [k] is not empty and removes that entry when [k]
    is empty, leaving every other key and every other slot alone; the first
    render reads the credential from that key, and takes the empty string
    when the key is absent. *)
Theorem credential_persistence
  (s : AppState) (ls : gmap (list N) (list N)) (k : list N)
  (Hls : localStorage s = Some ls) :
  let s' := exec (handleSetApiKey k) s in
  userApiKey s' = k /\
  localStorage s' =
    Some (if bool_decide (k = []) then delete gemini_api_key ls
          else <[gemini_api_key := k]> ls) /\
  (forall stored, localStorage s' = Some stored ->
     stored !! gemini_api_key = (if bool_decide (k = []) then None else Some k) /\
     forall k', k' <> gemini_api_key -> stored !! k' = ls !! k') /\
  (data s' = data s /\ viewMode s' = viewMode s /\ error s' = error s /\
   generatedImages s' = generatedImages s /\ videoUrls s' = videoUrls s /\
   jsonInput s' = jsonInput s /\ refImage s' = refImage s /\ toast s' = toast s) /\
  userApiKey (initial (Some ls)) = default [] (ls !! gemini_api_key) /\
  userApiKey (initial (localStorage s')) = k.
Proof.
  cbv zeta.
  assert (Hst : localStorage (exec (handleSetApiKey k) s) =
    Some (if bool_decide (k = []) then delete gemini_api_key ls
          else <[gemini_api_key := k]> ls)).
  { destruct k; unfold handleSetApiKey, exec; simpl; rewrite Hls; reflexivity. }
  split; [destruct k; reflexivity|].
  split; [exact Hst|].
  split.
  { intros stored Hs. rewrite Hst in Hs. injection Hs as <-.
    destruct k as [|c k]; simpl.
    - split; [apply lookup_delete_eq|].
      intros k' Hk. apply lookup_delete_ne. congruence.
    - split; [apply lookup_insert_eq|].
      intros k' Hk. apply lookup_insert_ne. congruence. }
  split; [destruct k; repeat split|].
  split.
  { simpl. destruct (ls !! gemini_api_key) as [[|c r]|]; reflexivity. }
  rewrite Hst. destruct k as [|c k]; simpl.
  - rewrite lookup_delete_eq. reflexivity.
  - rewrite lookup_insert_eq. reflexivity.
Qed.

(** A first key in an empty store. *)
Lemma credential_persistence_witness :
  let s := initial (Some ∅) in
  let k := js "AIza-key" in
  localStorage s = Some ∅ /\
  userApiKey (exec (handleSetApiKey k) s) = k /\
  localStorage (exec (handleSetApiKey k) s) = Some (<[gemini_api_key := k]> ∅).
Proof.
  cbv zeta. split; [reflexivity|].
  pose proof (credential_persistence (initial (Some ∅)) ∅ (js "AIza-key")
                eq_refl) as H.
  cbv zeta in H. destruct H as (H1 & H2 & _). split; [exact H1 | exact H2].
Defined.

(** * Further properties *)

(** ** Fence deletion *)

Lemma delete_all_sublist p s k : sublist (delete_all p s k) s.
Proof.
  revert k. induction s as [|c s IH]; intros k; [constructor|].
  cbn [delete_all]. destruct k as [|k].
  - destruct (startsWith p (c :: s)).
    + apply sublist_cons, IH.
    + apply sublist_skip, IH.
  - apply sublist_cons, IH.
Qed.

(** X1: the fence deletion of step 2 only deletes: the text handed to
    [JSON.parse] is a subsequence of the input, code units kept in their
    order, and never longer than the input. *)
Theorem strip_fences_only_deletes (rawInput : list N) :
  sublist (strip_fences rawInput) rawInput /\
  (length (strip_fences rawInput) <= length rawInput)%nat.
Proof.
  assert (H : sublist (strip_fences rawInput) rawInput).
  { unfold strip_fences, replace_all_empty.
    destruct (includes fence rawInput); [|reflexivity].
    etransitivity; apply delete_all_sublist. }
  split; [exact H | apply sublist_length, H].
Qed.

(** X2: the fence deletion is idempotent: applied to its own result it
    changes nothing, so a text that was cleaned once parses as it is. *)
Theorem strip_fences_idempotent (rawInput : list N) :
  strip_fences (strip_fences rawInput) = strip_fences rawInput.
Proof.
  assert (H : includes fence (strip_fences rawInput) = false).
  { rewrite strip_fences_eq. apply delete_fence_complete. }
  unfold strip_fences at 1. rewrite H. reflexivity.
Qed.

(** ** The document a successful parse stores *)

Lemma parsed_document_inv jsonInput ref doc :
  parsed_document jsonInput ref = inr doc ->
  exists props l,
    JSON_parse (strip_fences jsonInput) = Some (JObject props) /\
    lookup_prop storyboard_sequence props = Some (JArray l) /\
    doc = (let withMeta :=
             if truthy_opt (lookup_prop project_meta props) then JObject props
             else set (JObject props) project_meta default_meta in
           if truthy ref then set withMeta reference_image ref else withMeta).
Proof.
  unfold parsed_document.
  destruct (JSON_parse (strip_fences jsonInput)) as [v|]; [|discriminate].
  destruct v as [|b|n|str|l'|props]; try discriminate.
  cbn [get].
  destruct (lookup_prop storyboard_sequence props) as [q|] eqn:E;
    [|discriminate].
  destruct (Array_isArray (Some q)) eqn:Ea;
    [|rewrite andb_false_r; discriminate].
  destruct q as [|b|n|str|l|ps]; try discriminate.
  cbn [truthy_opt truthy andb].
  intros H. injection H as <-. exists props, l. repeat split. exact E.
Qed.

Lemma meta_not_reference_image : project_meta <> reference_image.
Proof. intros H. vm_compute in H. discriminate. Qed.

(** X3: when the [try] block of [handleVisualize] ends normally, the stored
    document is the parsed object with two possible changes and no other:
    its [storyboard_sequence] is the parsed array; its [project_meta] is the
    parsed one when that is truthy and the default otherwise, so it is
    always truthy; its [reference_image] is the image passed in when that is
    truthy and the parsed field otherwise; every other property reads as it
    was parsed. *)
Theorem visualize_success_document
  (em : JSError -> list N) (s : AppState) (jsonInput : list N) (ref : JSValue)
  (Hok : outcome (visualize_try jsonInput ref) s = inr tt) :
  let doc := data (exec (handleVisualize em jsonInput ref) s) in
  exists v l,
    JSON_parse (strip_fences jsonInput) = Some v /\
    get v storyboard_sequence = inr (Some (JArray l)) /\
    get doc storyboard_sequence = inr (Some (JArray l)) /\
    (exists m, get doc project_meta = inr (Some m) /\ truthy m = true) /\
    (forall m, get v project_meta = inr (Some m) -> truthy m = true ->
               get doc project_meta = inr (Some m)) /\
    (truthy_opt match get v project_meta with inr o => o | inl _ => None end
       = false -> get doc project_meta = inr (Some default_meta)) /\
    (truthy ref = true -> get doc reference_image = inr (Some ref)) /\
    (truthy ref = false -> get doc reference_image = get v reference_image) /\
    (forall k, k <> project_meta -> k <> reference_image ->
               get doc k = get v k).
Proof.
  cbv zeta. unfold outcome in Hok. rewrite visualize_try_spec in Hok.
  unfold exec. rewrite handleVisualize_spec.
  destruct (parsed_document jsonInput ref) as [e|doc] eqn:Hdoc; [discriminate|].
  destruct (parsed_document_inv _ _ _ Hdoc) as (props & l & Hp & Hs & ->).
  exists (JObject props), l. cbn [snd visualized data get].
  split; [exact Hp|]. split; [rewrite Hs; reflexivity|].
  destruct (lookup_prop project_meta props) as [m0|] eqn:Hm;
    cbn [truthy_opt]; [destruct (truthy m0) eqn:Ht|];
    destruct (truthy ref) eqn:Hr; cbn [set get];
    rewrite ?(lookup_set_prop_ne _ _ _ _ reference_image_not_sequence),
            ?(lookup_set_prop_ne _ _ _ _ project_meta_not_sequence),
            ?(lookup_set_prop_ne _ _ _ _ reference_image_not_meta),
            ?lookup_set_prop_eq,
            ?(lookup_set_prop_ne _ _ _ _ meta_not_reference_image),
            ?Hs, ?Hm;
    (split; [reflexivity|]);
    (split; [eexists; split; [reflexivity | first [exact Ht | reflexivity]]|]);
    (split; [intros m Hm' Ht'; first [congruence | (injection Hm' as <-; congruence)]|]);
    (split; [intros Hf; first [reflexivity | discriminate | congruence]|]);
    (split; [intros Hf; first [reflexivity | discriminate]|]);
    (split; [intros Hf; first [reflexivity | discriminate]|]);
    intros k Hk1 Hk2;
    rewrite ?(lookup_set_prop_ne _ _ _ _ (not_eq_sym Hk2)),
            ?(lookup_set_prop_ne _ _ _ _ (not_eq_sym Hk1)); reflexivity.
Qed.

(** X3 at an input with a meta of its own and an image passed in. *)
Lemma visualize_success_document_witness :
  let text := json_text "{'storyboard_sequence':[],'project_meta':{'title':'T'},'extra':1}" in
  let img := JString (js "data:image/png;base64,AA") in
  let doc := data (exec (handleVisualize (fun _ => []) text img) (initial None)) in
  outcome (visualize_try text img) (initial None) = inr tt /\
  exists v l,
    JSON_parse (strip_fences text) = Some v /\
    get doc storyboard_sequence = inr (Some (JArray l)) /\
    get doc (js "extra") = get v (js "extra").
Proof.
  cbv zeta.
  assert (H : outcome (visualize_try
    (json_text "{'storyboard_sequence':[],'project_meta':{'title':'T'},'extra':1}")
    (JString (js "data:image/png;base64,AA"))) (initial None) = inr tt)
    by (vm_compute; reflexivity).
  split; [exact H|].
  destruct (visualize_success_document (fun _ => []) _ _ _ H)
    as (v & l & Hp & _ & Hs & _ & _ & _ & _ & _ & Hk).
  exists v, l. split; [exact Hp|]. split; [exact Hs|].
  apply Hk; intros E; vm_compute in E; discriminate.
Defined.

(** X4: [handleVisualize], whether it succeeds or fails, leaves both media
    registries, the raw input slot, the reference-image slot, the credential
    and the store as they were: a new script does not clear the images and
    videos generated for the one before. *)
Theorem visualize_keeps_media
  (em : JSError -> list N) (s : AppState) (jsonInput : list N) (ref : JSValue) :
  let s' := exec (handleVisualize em jsonInput ref) s in
  generatedImages s' = generatedImages s /\ videoUrls s' = videoUrls s /\
  App.jsonInput s' = App.jsonInput s /\ refImage s' = refImage s /\
  userApiKey s' = userApiKey s /\ localStorage s' = localStorage s.
Proof.
  cbv zeta. unfold exec. rewrite handleVisualize_spec.
  destruct (parsed_document jsonInput ref); repeat split.
Qed.

(** X5: what the error slot holds after a rejected text. A text that is not
    JSON after fence deletion gives the engine's syntax message for the
    cleaned text; the text [null] gives the engine's message for the failed
    property read; any other value whose [storyboard_sequence] is not an
    array (absent included) gives the structure message of the source. In
    each case the document and the view stay. *)
Theorem visualize_rejection_message
  (em : JSError -> list N) (s : AppState) (jsonInput : list N) (ref : JSValue) :
  let s' := exec (handleVisualize em jsonInput ref) s in
  let text := strip_fences jsonInput in
  (JSON_parse text = None ->
   error s' = Some (js "오류: " ++ em (SyntaxError text)) /\
   data s' = data s /\ viewMode s' = viewMode s) /\
  (JSON_parse text = Some JNull ->
   error s' = Some (js "오류: " ++ em (TypeError storyboard_sequence)) /\
   data s' = data s /\ viewMode s' = viewMode s) /\
  (forall v o, JSON_parse text = Some v -> get v storyboard_sequence = inr o ->
     Array_isArray o = false ->
     error s' = Some (js "오류: " ++
                      js "데이터 구조 오류: 'storyboard_sequence' 배열이 없습니다.") /\
     data s' = data s /\ viewMode s' = viewMode s).
Proof.
  cbv zeta. unfold exec. rewrite handleVisualize_spec. unfold parsed_document.
  split; [|split].
  - intros ->. repeat split.
  - intros ->. repeat split.
  - intros v o -> -> Ho. rewrite Ho, andb_false_r. repeat split.
Qed.

(** X5 at a top-level array, which has no [storyboard_sequence]. *)
Lemma visualize_rejection_message_witness :
  let text := json_text "[{'id':1}]" in
  JSON_parse (strip_fences text)
    = Some (JArray [JObject [(js "id", JNumber {| neg := false; mant := 1; expo := 0 |})]]) /\
  error (exec (handleVisualize (fun _ => []) text JNull) (initial None))
    = Some (js "오류: " ++ js "데이터 구조 오류: 'storyboard_sequence' 배열이 없습니다.").
Proof.
  cbv zeta.
  assert (H : JSON_parse (strip_fences (json_text "[{'id':1}]"))
    = Some (JArray [JObject [(js "id", JNumber {| neg := false; mant := 1; expo := 0 |})]]))
    by (vm_compute; reflexivity).
  split; [exact H|].
  refine (proj1 (proj2 (proj2
    (visualize_rejection_message (fun _ => []) (initial None) _ JNull)) _ None H _ _));
    reflexivity.
Defined.

(** X6: submitting the same text twice in a row gives the state that
    submitting it once gives. *)
Theorem visualize_twice
  (em : JSError -> list N) (s : AppState) (jsonInput : list N) (ref : JSValue) :
  exec (handleVisualize em jsonInput ref) (exec (handleVisualize em jsonInput ref) s)
  = exec (handleVisualize em jsonInput ref) s.
Proof.
  unfold exec. rewrite !handleVisualize_spec.
  destruct (parsed_document jsonInput ref); reflexivity.
Qed.

(** ** The backup that the restore accepts *)

Lemma parse_value_bad_start f c r :
  is_ws c = false ->
  (c =? ch "{") = false -> (c =? ch "[") = false -> (c =? quote) = false ->
  (c =? ch "t") = false -> (c =? ch "f") = false -> (c =? ch "n") = false ->
  (c =? ch "-") = false -> is_digit c = false ->
  parse_value f (c :: r) = None.
Proof.
  intros Hw H1 H2 H3 H4 H5 H6 H7 H8. destruct f as [|f]; [reflexivity|].
  cbn [parse_value skip_ws]. rewrite Hw, H1, H2, H3, H4, H5, H6.
  unfold parse_number. rewrite H7.
  assert (H0 : (c =? ch "0") = false).
  { apply N.eqb_neq. intros ->. discriminate. }
  rewrite H0, H8. reflexivity.
Qed.

Lemma JSON_parse_backtick r : JSON_parse (96 :: r) = None.
Proof.
  unfold JSON_parse. rewrite parse_value_bad_start; reflexivity.
Qed.

(** X7: the restore applies no fence deletion: a backup text that begins
    with a triple backtick, such as one wrapped in a fence with the json
    tag, is rejected whatever it holds. The document, the view, the
    registries and the error slot stay, and the failure toast is shown. *)
Theorem restore_rejects_fenced_backup (s : AppState) (rest t : list N) :
  let failed s' :=
    same_session s s' /\ error s' = error s /\
    toast s' = {| visible := true;
                  message := js "백업 파일 복원 실패. 파일 형식을 확인해주세요.";
                  type := toast_success |} in
  failed (exec (handleRestoreFile (Some (fence ++ rest))) s) /\
  failed (exec (handleRestoreFile (Some (fence_json ++ t ++ fence))) s).
Proof.
  cbv zeta.
  assert (H : forall r, backup_payload (96 :: r) = None).
  { intros r. unfold backup_payload. rewrite JSON_parse_backtick. reflexivity. }
  unfold handleRestoreFile, exec. rewrite !restore_onload_spec.
  change (fence ++ rest) with (96 :: 96 :: 96 :: rest).
  change (fence_json ++ t ++ fence) with (96 :: js "``json" ++ t ++ fence).
  rewrite !H. repeat split.
Qed.

(** X8: the restore accepts a backup exactly when its text parses to an
    object whose [data] is an object with a truthy [storyboard_sequence]. *)
Theorem restore_accepts_iff (s : AppState) (content : list N) :
  outcome (restore_try content) s = inr tt <->
  exists props dprops q,
    JSON_parse content = Some (JObject props) /\
    lookup_prop (js "data") props = Some (JObject dprops) /\
    lookup_prop storyboard_sequence dprops = Some q /\
    truthy q = true.
Proof.
  pose proof (restore_try_spec content s) as T. unfold outcome.
  unfold backup_payload in T.
  split.
  - intros H.
    destruct (JSON_parse content) as [[|b|n|str|l|props]|] eqn:Ep;
      try (destruct T as [e T]; rewrite T in H; discriminate).
    destruct (lookup_prop (js "data") props) as [d|] eqn:Ed;
      [|destruct T as [e T]; rewrite T in H; discriminate].
    destruct d as [|b|n|str|l|dprops]; rewrite ?andb_false_r in T;
      try (destruct T as [e T]; rewrite T in H; discriminate).
    cbn [truthy andb] in T.
    destruct (lookup_prop storyboard_sequence dprops) as [q|] eqn:Eq;
      cbn [truthy_opt] in T;
      [|destruct T as [e T]; rewrite T in H; discriminate].
    destruct (truthy q) eqn:Et;
      [|destruct T as [e T]; rewrite T in H; discriminate].
    exists props, dprops, q. repeat split; reflexivity || assumption.
  - intros (props & dprops & q & Hp & Hd & Hq & Ht).
    rewrite Hp, Hd in T. cbn [truthy andb] in T. rewrite Hq in T.
    cbn [truthy_opt] in T. rewrite Ht in T. rewrite T. reflexivity.
Qed.

(** X8 at a backup whose sequence is empty. *)
Lemma restore_accepts_iff_witness :
  outcome (restore_try (json_text "{'data':{'storyboard_sequence':[]}}")) (initial None)
    = inr tt.
Proof.
  apply (proj2 (restore_accepts_iff (initial None)
                  (json_text "{'data':{'storyboard_sequence':[]}}"))).
  exists [(js "data", JObject [(storyboard_sequence, JArray [])])],
         [(storyboard_sequence, JArray [])], (JArray []).
  repeat split; vm_compute; reflexivity.
Defined.

(** ** The credential *)

(** X9: of two credential changes in a row only the second counts, in the
    state and in the store: setting a key and then clearing it leaves no
    entry, clearing and then setting leaves the new key. *)
Theorem credential_last_write_wins (s : AppState) (k1 k2 : list N) :
  exec (handleSetApiKey k2) (exec (handleSetApiKey k1) s)
  = exec (handleSetApiKey k2) s.
Proof.
  destruct s as [vm d e k j r gi vu t [ls|]];
    destruct k1, k2; unfold handleSetApiKey, exec; simpl; try reflexivity;
    do 2 f_equal.
  - apply delete_delete_eq.
  - apply insert_delete_eq.
  - apply delete_insert_eq.
  - apply insert_insert_eq.
Qed.

(** ** Invariants of a session *)

Lemma parsed_document_hasData jsonInput ref doc :
  parsed_document jsonInput ref = inr doc -> doc <> JNull.
Proof.
  intros H. destruct (parsed_document_inv _ _ _ H) as (props & l & _ & _ & ->).
  cbv zeta.
  destruct (truthy_opt (lookup_prop project_meta props)), (truthy ref);
    discriminate.
Qed.

Lemma backup_payload_truthy content d images videos :
  backup_payload content = Some (d, images, videos) -> d <> JNull.
Proof.
  unfold backup_payload.
  destruct (JSON_parse content) as [[|b|n|str|l|props]|]; try discriminate.
  destruct (lookup_prop (js "data") props) as [d'|]; [|discriminate].
  destruct d'; try discriminate.
  all: destruct (_ && _); [|discriminate].
  all: intros H; injection H as <- _ _; discriminate.
Qed.

Lemma hasData_not_null s : hasData s = true <-> data s <> JNull.
Proof.
  unfold hasData. destruct (data s); split; congruence || discriminate.
Qed.

(** What one event does to the view and the document: either both stay, or
    the view becomes [input] and the document stays, or a document is held
    afterwards. *)
Lemma step_view_data em e s :
  let s' := exec (Session.step em e) s in
  (viewMode s' = viewMode s /\ data s' = data s) \/
  (viewMode s' = input /\ data s' = data s) \/
  hasData s' = true.
Proof.
  cbv zeta. destruct e as [j r|k|v|v| |file|m| |m|i|v| ]; cbn [Session.step].
  - unfold exec. rewrite handleVisualize_spec.
    destruct (parsed_document j r) as [err|doc] eqn:E.
    + left. split; reflexivity.
    + right. right. apply hasData_not_null. cbn.
      exact (parsed_document_hasData _ _ _ E).
  - left. destruct k; split; reflexivity.
  - left. split; reflexivity.
  - left. split; reflexivity.
  - unfold clickGoToOutput, exec. destruct (hasData s) eqn:H.
    + right. right. exact H.
    + left. split; reflexivity.
  - destruct file as [content|]; [|left; split; reflexivity].
    unfold handleRestoreFile, exec. rewrite restore_onload_spec.
    destruct (backup_payload content) as [[[d i] v]|] eqn:E.
    + right. right. apply hasData_not_null. cbn.
      exact (backup_payload_truthy _ _ _ _ E).
    + left. split; reflexivity.
  - left. split; reflexivity.
  - right. left. split; reflexivity.
  - left. split; reflexivity.
  - left. split; reflexivity.
  - left. split; reflexivity.
  - left. split; reflexivity.
Qed.

(** X10: in every state of a session, the output view is shown only while a
    document is held, so the [data!] handed to [OutputSection] is never
    [null]. *)
Theorem output_view_has_document
  (em : JSError -> list N) (window : option (gmap (list N) (list N)))
  (s : AppState) (Hreach : Session.reachable em window s) :
  viewMode s = output -> hasData s = true.
Proof.
  induction Hreach as [|s e Hs IH]; [discriminate|].
  intros Hv.
  destruct (step_view_data em e s) as [[H1 H2] | [[H1 H2] | H]].
  - unfold hasData in *. rewrite H2. apply IH. congruence.
  - congruence.
  - exact H.
Qed.

(** X10 at the state after a first script. *)
Lemma output_view_has_document_witness :
  let em : JSError -> list N := fun _ => [] in
  let s := exec (Session.step em (Session.Visualize
                   (json_text "{'storyboard_sequence':[]}") JNull)) (initial None) in
  Session.reachable em None s /\ viewMode s = output /\ hasData s = true.
Proof.
  cbv zeta.
  assert (R : Session.reachable (fun _ => []) None
    (exec (Session.step (fun _ => []) (Session.Visualize
             (json_text "{'storyboard_sequence':[]}") JNull)) (initial None)))
    by (apply Session.reachable_step, Session.reachable_initial).
  assert (V : viewMode
    (exec (Session.step (fun _ => []) (Session.Visualize
             (json_text "{'storyboard_sequence':[]}") JNull)) (initial None))
    = output) by (vm_compute; reflexivity).
  split; [exact R|]. split; [exact V|].
  exact (output_view_has_document _ _ _ R V).
Defined.

(** X11: no event drops a document: once one is held, one is held after
    every further event, so the side-bar buttons stay enabled. *)
Theorem document_never_dropped
  (em : JSError -> list N) (events : list Session.Event) (s : AppState)
  (Hdata : hasData s = true) :
  hasData (Session.run em events s) = true.
Proof.
  revert s Hdata. induction events as [|e events IH]; intros s Hdata;
    [exact Hdata|].
  cbn [Session.run foldl]. apply IH.
  destruct (step_view_data em e s) as [[_ H] | [[_ H] | H]];
    [| |exact H]; unfold hasData in *; rewrite H; exact Hdata.
Qed.

(** X11 from [sample_session], through a failed parse, a reset and an
    unreadable backup. *)
Lemma document_never_dropped_witness :
  let events := [Session.Visualize (js "not json") JNull; Session.Reset;
                 Session.RestoreFile (Some (js "{}"))] in
  hasData sample_session = true /\
  hasData (Session.run (fun _ => []) events sample_session) = true.
Proof.
  cbv zeta. split; [reflexivity|].
  apply document_never_dropped. reflexivity.
Defined.

Lemma step_credential em e s :
  (forall k, e <> Session.SetApiKey k) ->
  userApiKey (exec (Session.step em e) s) = userApiKey s /\
  localStorage (exec (Session.step em e) s) = localStorage s.
Proof.
  intros Hne.
  destruct e as [j r|k|v|v| |file|m| |m|i|v| ]; cbn [Session.step];
    try (split; reflexivity).
  - unfold exec. rewrite handleVisualize_spec.
    destruct (parsed_document j r); split; reflexivity.
  - destruct (Hne k eq_refl).
  - unfold clickGoToOutput, exec. destruct (hasData s); split; reflexivity.
  - destruct file as [content|]; [|split; reflexivity].
    unfold handleRestoreFile, exec. rewrite restore_onload_spec.
    destruct (backup_payload content) as [[[d i] v]|]; split; reflexivity.
Qed.

(** X12: in a browser, the credential held in the state is at every moment
    the one a reload would read from the store: whatever the events of the
    session, the first render on the current store gives the current
    credential. *)
Theorem credential_survives_reload
  (em : JSError -> list N) (ls0 : gmap (list N) (list N)) (s : AppState)
  (Hreach : Session.reachable em (Some ls0) s) :
  exists ls, localStorage s = Some ls /\
             userApiKey (initial (Some ls)) = userApiKey s.
Proof.
  induction Hreach as [|s e Hs (ls & Hls & Hk)].
  - exists ls0. split; reflexivity.
  - destruct e as [j r|k|v|v| |file|m| |m|i|v| ].
    2:{ cbn [Session.step].
        exists (if bool_decide (k = []) then delete gemini_api_key ls
                else <[gemini_api_key := k]> ls).
        destruct k as [|c k]; unfold handleSetApiKey, exec; simpl; rewrite Hls;
          simpl; (split; [reflexivity|]).
        - rewrite lookup_delete_eq. reflexivity.
        - rewrite lookup_insert_eq. reflexivity. }
    all: exists ls.
    all: match goal with
         | |- context [exec (Session.step ?f ?e) ?s0] =>
           destruct (step_credential f e s0 ltac:(intros k; discriminate))
             as [H1 H2]
         end.
    all: rewrite H1, H2; split; assumption.
Qed.

(** X12 after a key was saved. *)
Lemma credential_survives_reload_witness :
  let em : JSError -> list N := fun _ => [] in
  let s := exec (Session.step em (Session.SetApiKey (js "AIza-key")))
                (initial (Some ∅)) in
  Session.reachable em (Some ∅) s /\
  exists ls, localStorage s = Some ls /\
             userApiKey (initial (Some ls)) = userApiKey s.
Proof.
  cbv zeta.
  assert (R : Session.reachable (fun _ => []) (Some ∅)
    (exec (Session.step (fun _ => []) (Session.SetApiKey (js "AIza-key")))
          (initial (Some ∅))))
    by (apply Session.reachable_step, Session.reachable_initial).
  split; [exact R|].
  exact (credential_survives_reload _ _ _ R).
Defined.

(** ** Blank text *)

Import InputSection.

Lemma trimStart_nil s :
  trimStart s = [] -> Forall (fun c => is_js_ws c = true) s.
Proof.
  induction s as [|c s IH]; [constructor|].
  cbn [trimStart]. destruct (is_js_ws c) eqn:E; [|discriminate].
  intros H. constructor; [exact E | apply IH, H].
Qed.

Lemma trimStart_all s :
  Forall (fun c => is_js_ws c = true) (trimStart s) ->
  Forall (fun c => is_js_ws c = true) s.
Proof.
  induction s as [|c s IH]; [constructor|].
  cbn [trimStart]. destruct (is_js_ws c) eqn:E.
  - intros H. constructor; [exact E | apply IH, H].
  - trivial.
Qed.

(** A string that trims to the empty string is white space throughout. *)
Lemma trim_nil s :
  trim s = [] -> Forall (fun c => is_js_ws c = true) s.
Proof.
  unfold trim. intros H.
  apply (f_equal (@rev N)) in H. rewrite rev_involutive in H. cbn [rev] in H.
  apply trimStart_nil in H.
  apply trimStart_all. apply Forall_forall. intros c Hc.
  rewrite Forall_forall in H. apply H. apply list_elem_of_In.
  apply in_rev. rewrite rev_involutive. apply list_elem_of_In, Hc.
Qed.

Lemma trim_not_nil s : trim s <> [] -> s <> [].
Proof. intros H ->. apply H. reflexivity. Qed.

Lemma js_ws_range c : is_js_ws c = true -> c <= 32 \/ 160 <= c.
Proof.
  unfold is_js_ws. intros H.
  repeat (apply orb_true_iff in H as [H|H]);
    try (apply N.eqb_eq in H; subst c; lia).
  apply andb_true_iff in H as [H _]. apply N.leb_le in H. lia.
Qed.

Lemma js_ws_parse_value f c r :
  is_js_ws c = true -> is_ws c = false -> parse_value f (c :: r) = None.
Proof.
  intros H Hw. apply js_ws_range in H.
  apply parse_value_bad_start; try exact Hw;
    try (apply N.eqb_neq; intros ->; vm_compute in H; destruct H as [H|H];
         apply H; reflexivity).
  unfold is_digit. destruct (N.leb_spec 48 c), (N.leb_spec c 57);
    try reflexivity. lia.
Qed.

Lemma blank_parse_value f s :
  Forall (fun c => is_js_ws c = true) s -> parse_value f s = None.
Proof.
  induction 1 as [|c s Hc Hs IH]; destruct f as [|f]; try reflexivity.
  destruct (is_ws c) eqn:Hw.
  - rewrite <- IH. cbn [parse_value skip_ws]. rewrite Hw. reflexivity.
  - apply js_ws_parse_value; assumption.
Qed.

Lemma blank_no_fence s :
  Forall (fun c => is_js_ws c = true) s -> includes fence s = false.
Proof.
  induction 1 as [|c s Hc Hs IH]; [reflexivity|].
  cbn [includes]. rewrite IH, orb_false_r.
  change fence with [96; 96; 96]. cbn [startsWith].
  destruct (N.eqb_spec 96 c) as [<-|]; [discriminate | reflexivity].
Qed.

(** A blank text is handed to [JSON.parse] as it is, and is no JSON. *)
Lemma blank_parsed_document s ref :
  trim s = [] -> parsed_document s ref = inl (SyntaxError s).
Proof.
  intros H. apply trim_nil in H. unfold parsed_document, strip_fences.
  rewrite (blank_no_fence s H). unfold JSON_parse.
  rewrite (blank_parse_value _ s H). reflexivity.
Qed.

(** ** Submitting from [InputSection] *)

(** X13: without a credential neither the submit button nor the keyboard
    shortcut runs the parse: the state of [App] stays as it is, valid text
    or not, and when the handler runs the settings dialog opens with its
    warning. *)
Theorem submit_needs_credential
  (em : JSError -> list N) (e : KeyboardEvent) (l : LocalState) (s : AppState)
  (Hkey : userApiKey s = []) :
  (handleKeyDown em e l s).2 = s /\ (clickSubmit em l s).2 = s /\
  (handleVisualizeClick em l s).2 = s /\
  isSettingsOpen (handleVisualizeClick em l s).1 = true /\
  showApiKeyWarning (handleVisualizeClick em l s).1 = true.
Proof.
  unfold handleKeyDown, clickSubmit, handleVisualizeClick. rewrite Hkey.
  cbn [is_empty]. repeat split.
  - destruct (_ && _); reflexivity.
  - destruct (is_empty _); reflexivity.
Qed.

(** X13 at the first render with valid text typed in. *)
Lemma submit_needs_credential_witness :
  let s := exec (setJsonInput (json_text "{'storyboard_sequence':[]}")) (initial None) in
  userApiKey s = [] /\
  (clickSubmit (fun _ => []) (mount []) s).2 = s.
Proof.
  cbv zeta. split; [reflexivity|].
  exact (proj1 (proj2 (submit_needs_credential (fun _ => [])
    {| ctrlKey := true; metaKey := false; key := js "Enter" |} (mount [])
    (exec (setJsonInput (json_text "{'storyboard_sequence':[]}")) (initial None))
    eq_refl))).
Defined.

(** X14: the submit button is disabled on blank text, but the shortcut
    Ctrl+Enter (or Cmd+Enter) is not: with a credential set and blank text
    in the editor, the click does nothing, while the shortcut runs the
    parse, which fails; the error slot takes the engine's syntax message and
    the rest of the session stays. *)
Theorem shortcut_submits_blank_text
  (em : JSError -> list N) (e : KeyboardEvent) (l : LocalState) (s : AppState)
  (Hmod : ctrlKey e || metaKey e = true) (Henter : key e = js "Enter")
  (Hkey : userApiKey s <> []) (Hblank : trim (jsonInput s) = []) :
  clickSubmit em l s = (l, s) /\
  (handleKeyDown em e l s).1 = l /\
  same_session s (handleKeyDown em e l s).2 /\
  error (handleKeyDown em e l s).2
    = Some (js "오류: " ++ em (SyntaxError (jsonInput s))).
Proof.
  unfold clickSubmit, handleKeyDown, handleVisualizeClick.
  rewrite Hblank, Hmod, Henter, bool_decide_eq_true_2 by reflexivity.
  cbn [is_empty andb].
  destruct (userApiKey s) as [|c k] eqn:Ek; [congruence|]. cbn [is_empty fst snd].
  unfold exec. rewrite handleVisualize_spec, (blank_parsed_document _ _ Hblank).
  cbn [snd]. repeat split.
Qed.

(** X14 with an editor that holds a line break only. *)
Lemma shortcut_submits_blank_text_witness :
  let s := exec (setJsonInput [10]) (exec (setUserApiKey (js "k")) (initial None)) in
  let e := {| ctrlKey := true; metaKey := false; key := js "Enter" |} in
  (ctrlKey e || metaKey e = true /\ key e = js "Enter" /\
   userApiKey s <> [] /\ trim (jsonInput s) = []) /\
  error (handleKeyDown (fun _ => js "Unexpected end of JSON input") e (mount (js "k")) s).2
    = Some (js "오류: " ++ js "Unexpected end of JSON input").
Proof.
  cbv zeta.
  assert (H3 : userApiKey (exec (setJsonInput [10])
                 (exec (setUserApiKey (js "k")) (initial None))) <> [])
    by (vm_compute; discriminate).
  split; [repeat split; try reflexivity; exact H3|].
  exact (proj2 (proj2 (proj2 (shortcut_submits_blank_text
    (fun _ => js "Unexpected end of JSON input")
    {| ctrlKey := true; metaKey := false; key := js "Enter" |}
    (mount (js "k"))
    (exec (setJsonInput [10]) (exec (setUserApiKey (js "k")) (initial None)))
    eq_refl eq_refl H3 eq_refl)))).
Defined.

Lemma parsed_document_reference_image jsonInput ref doc :
  parsed_document jsonInput ref = inr doc -> truthy ref = true ->
  get doc reference_image = inr (Some ref).
Proof.
  intros H Ht. destruct (parsed_document_inv _ _ _ H) as (props & l & _ & _ & ->).
  cbv zeta. rewrite Ht.
  destruct (truthy_opt (lookup_prop project_meta props)); cbn [set get];
    rewrite lookup_set_prop_eq; reflexivity.
Qed.

(** X15: with a credential set, a submit on text that parses opens the
    output view on a document whose [reference_image] is the image in the
    reference-image slot, when there is one; the slot keeps the image, and
    the local state of [InputSection] is not touched. *)
Theorem submit_attaches_reference_image
  (em : JSError -> list N) (l : LocalState) (s : AppState)
  (Hkey : userApiKey s <> [])
  (Himg : truthy (refImage s) = true)
  (Hok : outcome (visualize_try (jsonInput s) (refImage s)) s = inr tt) :
  let r := handleVisualizeClick em l s in
  r.1 = l /\ viewMode r.2 = output /\ error r.2 = None /\
  get (data r.2) reference_image = inr (Some (refImage s)) /\
  refImage r.2 = refImage s.
Proof.
  cbv zeta. unfold handleVisualizeClick.
  destruct (userApiKey s) as [|c k]; [congruence|]. cbn [is_empty fst snd].
  unfold outcome in Hok. rewrite visualize_try_spec in Hok.
  unfold exec. rewrite handleVisualize_spec.
  destruct (parsed_document (jsonInput s) (refImage s)) as [e|doc] eqn:E;
    [discriminate|].
  cbn [snd visualized data]. repeat split.
  exact (parsed_document_reference_image _ _ _ E Himg).
Qed.

(** X15 with a data URL in the slot. *)
Lemma submit_attaches_reference_image_witness :
  let s := exec (setRefImage (JString (js "data:image/png;base64,AA")))
             (exec (setJsonInput (json_text "{'storyboard_sequence':[]}"))
                (exec (setUserApiKey (js "k")) (initial None))) in
  outcome (visualize_try (jsonInput s) (refImage s)) s = inr tt /\
  get (data (handleVisualizeClick (fun _ => []) (mount (js "k")) s).2) reference_image
    = inr (Some (JString (js "data:image/png;base64,AA"))).
Proof.
  cbv zeta.
  assert (H : outcome (visualize_try
      (jsonInput (exec (setRefImage (JString (js "data:image/png;base64,AA")))
         (exec (setJsonInput (json_text "{'storyboard_sequence':[]}"))
            (exec (setUserApiKey (js "k")) (initial None)))))
      (refImage (exec (setRefImage (JString (js "data:image/png;base64,AA")))
         (exec (setJsonInput (json_text "{'storyboard_sequence':[]}"))
            (exec (setUserApiKey (js "k")) (initial None))))))
      (exec (setRefImage (JString (js "data:image/png;base64,AA")))
         (exec (setJsonInput (json_text "{'storyboard_sequence':[]}"))
            (exec (setUserApiKey (js "k")) (initial None)))) = inr tt)
    by (vm_compute; reflexivity).
  split; [exact H|].
  refine (proj1 (proj2 (proj2 (proj2
    (submit_attaches_reference_image (fun _ => []) (mount (js "k")) _ _ _ H))))).
  - vm_compute. discriminate.
  - reflexivity.
Defined.

(** ** The settings dialog *)

(** X16: the save button stores the typed key as it is, untrimmed, and can
    never clear the credential: on a blank draft the button is disabled and
    nothing changes; otherwise the draft becomes the credential, is written
    under [gemini_api_key] where there is a store, and the dialog closes
    with its warning. *)
Theorem save_button_stores_draft (l : LocalState) (s : AppState) :
  (trim (tempApiKey l) = [] -> clickSave l s = (l, s)) /\
  (trim (tempApiKey l) <> [] ->
   let r := clickSave l s in
   userApiKey r.2 = tempApiKey l /\
   (forall ls, localStorage s = Some ls ->
      localStorage r.2 = Some (<[gemini_api_key := tempApiKey l]> ls)) /\
   isSettingsOpen r.1 = false /\ showApiKeyWarning r.1 = false /\
   tempApiKey r.1 = tempApiKey l /\
   data r.2 = data s /\ viewMode r.2 = viewMode s).
Proof.
  unfold clickSave. split.
  - intros ->. reflexivity.
  - intros H. cbv zeta.
    destruct (trim (tempApiKey l)) as [|c t] eqn:E; [congruence|].
    cbn [is_empty]. unfold handleSaveApiKey. cbn [fst snd].
    assert (Hne : tempApiKey l <> []).
    { apply trim_not_nil. rewrite E. discriminate. }
    unfold handleSetApiKey, exec.
    destruct (tempApiKey l) as [|c' k] eqn:Ek; [congruence|].
    repeat split; simpl; rewrite ?Ek; try reflexivity.
    intros ls Hls. rewrite Hls. reflexivity.
Qed.

(** X16 with a draft that has spaces around the key. *)
Lemma save_button_stores_draft_witness :
  let l := setTempApiKey (js " AIza-key ") (mount []) in
  let r := clickSave l (initial (Some ∅)) in
  trim (tempApiKey l) <> [] /\
  userApiKey r.2 = js " AIza-key " /\
  localStorage r.2 = Some (<[gemini_api_key := js " AIza-key "]> ∅).
Proof.
  cbv zeta.
  assert (H : trim (tempApiKey (setTempApiKey (js " AIza-key ") (mount []))) <> [])
    by (vm_compute; discriminate).
  split; [exact H|].
  destruct (proj2 (save_button_stores_draft
    (setTempApiKey (js " AIza-key ") (mount [])) (initial (Some ∅))) H)
    as (H1 & H2 & _).
  split; [exact H1 | exact (H2 ∅ eq_refl)].
Defined.

(** ** Loading the reference image from a URL *)

(** X17: a URL load that fails leaves the reference image alone. On a blank
    URL nothing happens at all. Otherwise, when the fetch or the blob read
    rejects, when the response is not ok, or when the blob's type does not
    begin with image/, the state of [App] is untouched (the image held
    before is kept), the message is put in the URL error slot, the loading
    flag is off again, and the typed URL and the URL box stay for a
    correction. *)
Theorem url_load_failure_keeps_image
  (em : JSError -> list N) (net : FetchOutcome) (l : LocalState) (s : AppState) :
  let r := handleLoadImageUrl em net l s in
  let kept (msg : list N) :=
    r.2 = s /\ urlError r.1 = Some msg /\ isLoadingUrl r.1 = false /\
    imageUrl r.1 = imageUrl l /\ showUrlInput r.1 = showUrlInput l in
  (trim (imageUrl l) = [] -> r = (l, s)) /\
  (trim (imageUrl l) <> [] ->
   (forall e, net = FetchRejected e -> kept (message_of em e)) /\
   (forall body, net = FetchResponse false body ->
      kept (js "이미지를 불러올 수 없습니다.")) /\
   (forall e, net = FetchResponse true (BlobRejected e) ->
      kept (message_of em e)) /\
   (forall type read, net = FetchResponse true (Blob type read) ->
      startsWith (js "image/") type = false ->
      kept (js "유효한 이미지 파일이 아닙니다."))).
Proof.
  cbv zeta. unfold handleLoadImageUrl. split.
  - intros ->. reflexivity.
  - intros H. destruct (trim (imageUrl l)) as [|c t]; [congruence|].
    cbn [is_empty]. repeat split; subst net; cbn [load_try negb];
      try match goal with Hs : startsWith _ _ = false |- _ => rewrite Hs end;
      reflexivity.
Qed.

(** X17 with an HTML page behind the URL. *)
Lemma url_load_failure_keeps_image_witness :
  let l := setImageUrl (js "https://example.org/page") (mount []) in
  let net := FetchResponse true (Blob (js "text/html") (Some (js "data:text/html;base64,AA"))) in
  trim (imageUrl l) <> [] /\
  (handleLoadImageUrl (fun _ => []) net l sample_session).2 = sample_session /\
  urlError (handleLoadImageUrl (fun _ => []) net l sample_session).1
    = Some (js "유효한 이미지 파일이 아닙니다.").
Proof.
  cbv zeta.
  assert (H : trim (imageUrl (setImageUrl (js "https://example.org/page") (mount []))) <> [])
    by (vm_compute; discriminate).
  split; [exact H|].
  destruct (proj2 (proj2 (proj2 (proj2 (url_load_failure_keeps_image (fun _ => [])
    (FetchResponse true (Blob (js "text/html") (Some (js "data:text/html;base64,AA"))))
    (setImageUrl (js "https://example.org/page") (mount [])) sample_session) H)))
    (js "text/html") (Some (js "data:text/html;base64,AA")) eq_refl eq_refl)
    as (H1 & H2 & _).
  split; [exact H1 | exact H2].
Defined.

(** X18: a URL load that succeeds (the response is ok, the blob's type
    begins with image/, the reader gives a data URL) stores that data URL in
    the reference-image slot and shows the completion toast; nothing else of
    the [App] state changes, so the next submit attaches this image. The URL
    box closes with the typed URL cleared, no error and the loading flag
    off. *)
Theorem url_load_success_sets_image
  (em : JSError -> list N) (l : LocalState) (s : AppState)
  (type url : list N)
  (Hurl : trim (imageUrl l) <> [])
  (Htype : startsWith (js "image/") type = true) :
  let r := handleLoadImageUrl em (FetchResponse true (Blob type (Some url))) l s in
  refImage r.2 = JString url /\
  toast r.2 = {| visible := true; message := js "이미지 URL 로드 완료!";
                 App.type := toast_success |} /\
  (data r.2 = data s /\ viewMode r.2 = viewMode s /\ error r.2 = error s /\
   generatedImages r.2 = generatedImages s /\ videoUrls r.2 = videoUrls s /\
   jsonInput r.2 = jsonInput s /\ userApiKey r.2 = userApiKey s /\
   localStorage r.2 = localStorage s) /\
  showUrlInput r.1 = false /\ imageUrl r.1 = [] /\ urlError r.1 = None /\
  isLoadingUrl r.1 = false.
Proof.
  cbv zeta. unfold handleLoadImageUrl.
  destruct (trim (imageUrl l)) as [|c t]; [congruence|].
  cbn [is_empty load_try negb]. rewrite Htype. cbn [negb].
  repeat split.
Qed.

(** X18 with a PNG behind the URL. *)
Lemma url_load_success_sets_image_witness :
  let l := setImageUrl (js "https://example.org/a.png") (mount []) in
  let net := FetchResponse true (Blob (js "image/png") (Some (js "data:image/png;base64,AA"))) in
  (trim (imageUrl l) <> [] /\ startsWith (js "image/") (js "image/png") = true) /\
  refImage (handleLoadImageUrl (fun _ => []) net l (initial None)).2
    = JString (js "data:image/png;base64,AA").
Proof.
  cbv zeta.
  assert (H : trim (imageUrl (setImageUrl (js "https://example.org/a.png") (mount []))) <> [])
    by (vm_compute; discriminate).
  split; [split; [exact H | reflexivity]|].
  exact (proj1 (url_load_success_sets_image (fun _ => [])
    (setImageUrl (js "https://example.org/a.png") (mount [])) (initial None)
    (js "image/png") (js "data:image/png;base64,AA") H eq_refl)).
Defined.
